(** * A sequential model of [mine_shared_prt.cc]

    The class template [shared_ptr<T>] is embedded over an explicit heap:
    the live [shared_ptr] instances (found by their address, the [this]
    pointer, so that [this != &other] is a comparison of addresses), the
    live control blocks ([std::atomic<std::size_t>] objects made by [new]),
    the live managed objects, and a chronological log of the allocation and
    deallocation events.  Every member function is a computation in a small
    monad whose outcomes are normal return, an exception leaving the
    function ([std::bad_alloc] from [new]) and undefined behaviour. *)

From stdpp Require Import gmap list strings.
From Stdlib Require Import ZArith Lia.

Open Scope Z_scope.

(** ** Data *)

(** Non-null addresses; [nullptr] is [None] in an [option loc]. *)
Abbreviation loc := positive (only parsing).
Abbreviation pointer := (option positive) (only parsing).

(** [std::size_t] on the 64-bit targets: arithmetic wraps modulo [2^64]. *)
Definition SIZE_MAX : Z := 2 ^ 64 - 1.
Definition size_t_wrap (z : Z) : Z := z mod 2 ^ 64.

(** The [std::memory_order] arguments the source passes.  The model runs one
    thread, so they are carried along and have no effect. *)
Inductive memory_order :=
| memory_order_relaxed
| memory_order_acquire
| memory_order_acq_rel.

(** How a managed object was obtained by the caller: [new T] or [new T[n]]. *)
Inductive alloc_form := by_new | by_new_array.

(** The two private data members of the class. *)
Record shared_ptr := mk_shared_ptr {
  _ptr : pointer;
  _ref_count : pointer
}.

Inductive event :=
| EvNewCtrl (c : loc)      (* new std::atomic<std::size_t>(1) returned c *)
| EvDestroy (p : loc)      (* the managed object at p was deleted *)
| EvFreeCtrl (c : loc).    (* delete _ref_count, for the block at c *)

Record heap := mk_heap {
  insts : gmap positive shared_ptr;
  ctrl : gmap positive Z;
  objs : gmap positive alloc_form;
  trace : list event
}.

Definition with_insts (f : gmap positive shared_ptr → gmap positive shared_ptr)
    (h : heap) : heap :=
  mk_heap (f (insts h)) (ctrl h) (objs h) (trace h).

Definition with_ctrl (f : gmap positive Z → gmap positive Z) (h : heap) : heap :=
  mk_heap (insts h) (f (ctrl h)) (objs h) (trace h).

Definition with_objs (f : gmap positive alloc_form → gmap positive alloc_form)
    (h : heap) : heap :=
  mk_heap (insts h) (ctrl h) (f (objs h)) (trace h).

Definition log (e : event) (h : heap) : heap :=
  mk_heap (insts h) (ctrl h) (objs h) (trace h ++ [e]).

(** ** The monad of member functions *)

Inductive outcome (A : Type) :=
| Ok (a : A) (h : heap)    (* normal return *)
| Throw (h : heap)         (* std::bad_alloc leaves the function, heap as it is then *)
| UB.                      (* undefined behaviour *)
Arguments Ok {A} a h.
Arguments Throw {A} h.
Arguments UB {A}.

Definition M (A : Type) : Type := heap → outcome A.

Definition ret {A} (a : A) : M A := fun h => Ok a h.

Definition bind {A B} (k : A → M B) (m : M A) : M B :=
  fun h =>
    match m h with
    | Ok a h' => k a h'
    | Throw h' => Throw h'
    | UB => UB
    end.

(** [x ← m; k] and [m;; k] are stdpp's notations for [bind]. *)
#[global] Instance M_ret : MRet M := @ret.
#[global] Instance M_bind : MBind M := @bind.

(** ** Primitive steps *)

(** Reading and writing the members of the instance at address [a].  Touching
    an address where no instance lives is undefined. *)
Definition read_ptr (a : loc) : M pointer := fun h =>
  match insts h !! a with
  | Some x => Ok (_ptr x) h
  | None => UB
  end.

Definition read_ref_count (a : loc) : M pointer := fun h =>
  match insts h !! a with
  | Some x => Ok (_ref_count x) h
  | None => UB
  end.

Definition write_ptr (a : loc) (p : pointer) : M unit := fun h =>
  match insts h !! a with
  | Some x => Ok tt (with_insts (insert a (mk_shared_ptr p (_ref_count x))) h)
  | None => UB
  end.

Definition write_ref_count (a : loc) (c : pointer) : M unit := fun h =>
  match insts h !! a with
  | Some x => Ok tt (with_insts (insert a (mk_shared_ptr (_ptr x) c)) h)
  | None => UB
  end.

(** The end of a constructor: the instance at [a] starts to live with the
    members its initialisers and body gave it. *)
Definition init (a : loc) (x : shared_ptr) : M unit := fun h =>
  Ok tt (with_insts (insert a x) h).

(** The end of the destructor: the instance at [a] is gone. *)
Definition end_lifetime (a : loc) : M unit := fun h =>
  Ok tt (with_insts (delete a) h).

(** [new std::atomic<std::size_t>(v)].  What the allocator does is an input:
    [Some c] when it returns the address [c], [None] when it throws. *)
Definition new_atomic (v : Z) (na : pointer) : M loc := fun h =>
  match na with
  | Some c => Ok c (log (EvNewCtrl c) (with_ctrl (insert c v) h))
  | None => Throw h
  end.

Definition fetch_add (c : loc) (k : Z) (mo : memory_order) : M Z := fun h =>
  match ctrl h !! c with
  | Some n => Ok n (with_ctrl (insert c (size_t_wrap (n + k))) h)
  | None => UB
  end.

Definition fetch_sub (c : loc) (k : Z) (mo : memory_order) : M Z := fun h =>
  match ctrl h !! c with
  | Some n => Ok n (with_ctrl (insert c (size_t_wrap (n - k))) h)
  | None => UB
  end.

Definition load (c : loc) (mo : memory_order) : M Z := fun h =>
  match ctrl h !! c with
  | Some n => Ok n h
  | None => UB
  end.

(** [std::default_delete<T>{}(p)] for an object type [T]: the primary template,
    whose call operator is [delete p].  Deleting the null pointer does
    nothing; deleting what is not a live object made by [new T] (an object
    already deleted, or an array made by [new T[n]]) is undefined.  The
    step ends the object and logs it.  What the destructor of [T] runs
    besides is not part of it: for a [T] with [shared_ptr] members it would
    release them at this point, so the step is the whole deletion only for
    a [T] that holds no [shared_ptr] instance. *)
Definition default_delete (p : pointer) : M unit := fun h =>
  match p with
  | None => Ok tt h
  | Some q =>
      match objs h !! q with
      | Some by_new => Ok tt (log (EvDestroy q) (with_objs (delete q) h))
      | Some by_new_array => UB
      | None => UB
      end
  end.

(** [delete _ref_count] on a non-null pointer. *)
Definition delete_atomic (c : loc) : M unit := fun h =>
  match ctrl h !! c with
  | Some _ => Ok tt (log (EvFreeCtrl c) (with_ctrl (delete c) h))
  | None => UB
  end.

(** The glvalue [*p] for a non-null [p]. *)
Definition object_at (q : loc) : M loc := fun h =>
  match objs h !! q with
  | Some _ => Ok q h
  | None => UB
  end.

Definition undefined {A} : M A := fun _ => UB.

(** ** The member functions of [shared_ptr<T>] *)

(** [void release()] *)
Definition release (this : loc) : M unit :=
  rc ← read_ref_count this;
  match rc with
  | None => ret tt
  | Some c =>
      old ← fetch_sub c 1 memory_order_acq_rel;
      if old =? 1 then
        (p ← read_ptr this;
         default_delete p;;
         rc' ← read_ref_count this;
         match rc' with
         | Some c' => delete_atomic c'
         | None => ret tt       (* delete of a null pointer *)
         end)
      else ret tt
  end.

(** [shared_ptr()] *)
Definition ctor_default (this : loc) : M unit :=
  init this (mk_shared_ptr None None).

(** [explicit shared_ptr(T* p)].  When [new] throws, the constructor is left
    before the instance starts to live. *)
Definition ctor_ptr (this : loc) (p : pointer) (na : pointer) : M unit :=
  match p with
  | Some _ =>
      c ← new_atomic 1 na;
      init this (mk_shared_ptr p (Some c))
  | None => init this (mk_shared_ptr p None)
  end.

(** [~shared_ptr()] *)
Definition dtor (this : loc) : M unit :=
  release this;;
  end_lifetime this.

(** [shared_ptr(const shared_ptr<T>& other)] *)
Definition ctor_copy (this other : loc) : M unit :=
  p ← read_ptr other;
  c ← read_ref_count other;
  init this (mk_shared_ptr p c);;
  rc ← read_ref_count this;
  match rc with
  | Some c => fetch_add c 1 memory_order_relaxed;; ret tt
  | None => ret tt
  end.

(** [shared_ptr<T>& operator=(const shared_ptr<T>& other)] *)
Definition assign_copy (this other : loc) : M unit :=
  if decide (this ≠ other) then
    (release this;;
     p ← read_ptr other;
     write_ptr this p;;
     c ← read_ref_count other;
     write_ref_count this c;;
     rc ← read_ref_count this;
     match rc with
     | Some c => fetch_add c 1 memory_order_relaxed;; ret tt
     | None => ret tt
     end)
  else ret tt.

(** [shared_ptr(shared_ptr<T>&& other) noexcept] *)
Definition ctor_move (this other : loc) : M unit :=
  p ← read_ptr other;
  c ← read_ref_count other;
  init this (mk_shared_ptr p c);;
  write_ptr other None;;
  write_ref_count other None.

(** [shared_ptr<T>& operator=(shared_ptr<T>&& other) noexcept] *)
Definition assign_move (this other : loc) : M unit :=
  if decide (this ≠ other) then
    (release this;;
     p ← read_ptr other;
     write_ptr this p;;
     c ← read_ref_count other;
     write_ref_count this c;;
     write_ptr other None;;
     write_ref_count other None)
  else ret tt.

(** [std::size_t use_count() const] *)
Definition use_count (this : loc) : M Z :=
  rc ← read_ref_count this;
  match rc with
  | Some c => load c memory_order_acquire
  | None => ret 0
  end.

(** [T* get() const] *)
Definition get (this : loc) : M pointer := read_ptr this.

(** [T* operator->() const] *)
Definition arrow (this : loc) : M pointer := read_ptr this.

(** [T& operator*() const]: the object [_ptr] points to.  Undefined on a
    null instance and on one whose object is gone. *)
Definition deref (this : loc) : M loc :=
  p ← read_ptr this;
  match p with
  | Some q => object_at q
  | None => undefined
  end.

(** [void reset(T* p = nullptr)] *)
Definition reset (this : loc) (p : pointer) (na : pointer) : M unit :=
  release this;;
  write_ptr this p;;
  c ← match p with
      | Some _ => c ← new_atomic 1 na; ret (Some c)
      | None => ret None
      end;
  write_ref_count this c.

(** ** The public operations that change an instance *)

Inductive operation :=
| OpDefault (this : loc)                    (* shared_ptr() *)
| OpFromPointer (this : loc) (p na : pointer) (* explicit shared_ptr(T* p) *)
| OpDestroy (this : loc)                    (* ~shared_ptr() *)
| OpCopyConstruct (this other : loc)
| OpCopyAssign (this other : loc)
| OpMoveConstruct (this other : loc)
| OpMoveAssign (this other : loc)
| OpReset (this : loc) (p na : pointer).

Definition run (o : operation) : M unit :=
  match o with
  | OpDefault this => ctor_default this
  | OpFromPointer this p na => ctor_ptr this p na
  | OpDestroy this => dtor this
  | OpCopyConstruct this other => ctor_copy this other
  | OpCopyAssign this other => assign_copy this other
  | OpMoveConstruct this other => ctor_move this other
  | OpMoveAssign this other => assign_move this other
  | OpReset this p na => reset this p na
  end.

(** ** Predicates of the statements *)

(** The instance at [this] can be released without undefined behaviour: its
    control block, if any, is live, and when this is the last owner the
    managed object is a live object made by [new]. *)
Definition releasable (h : heap) (x : shared_ptr) : Prop :=
  match _ref_count x with
  | None => True
  | Some c =>
      match ctrl h !! c with
      | None => False
      | Some n =>
          n = 1 →
          match _ptr x with
          | None => True
          | Some p => objs h !! p = Some by_new
          end
      end
  end.

(** The ways in which [release] returns. *)
Inductive released (h : heap) (x : shared_ptr) : heap → Prop :=
| released_null :
    _ref_count x = None → released h x h
| released_shared c n :
    _ref_count x = Some c → ctrl h !! c = Some n → n ≠ 1 →
    released h x (with_ctrl (insert c (size_t_wrap (n - 1))) h)
| released_last c p :
    _ref_count x = Some c → ctrl h !! c = Some 1 →
    _ptr x = Some p → objs h !! p = Some by_new →
    released h x (mk_heap (insts h) (delete c (ctrl h)) (delete p (objs h))
                    (trace h ++ [EvDestroy p; EvFreeCtrl c]))
| released_last_null c :
    _ref_count x = Some c → ctrl h !! c = Some 1 → _ptr x = None →
    released h x (mk_heap (insts h) (delete c (ctrl h)) (objs h)
                    (trace h ++ [EvFreeCtrl c])).

(** The instance [x] is null, or is not the last owner of its object: its
    control block is live with a counter other than 1, so that [release]
    only decrements the counter; nothing is deleted and no destructor of a
    managed object runs. *)
Definition not_last_owner (h : heap) (x : shared_ptr) : Prop :=
  match _ref_count x with
  | None => True
  | Some c => ∃ n, ctrl h !! c = Some n ∧ n ≠ 1
  end.

(** The operation deletes no managed object: the operations that release
    [this] (the destructor, an assignment between distinct instances,
    [reset]) are called on an instance that is not the last owner. *)
Definition keeps_objects (h : heap) (o : operation) : Prop :=
  match o with
  | OpDestroy this | OpReset this _ _ =>
      ∀ x, insts h !! this = Some x → not_last_owner h x
  | OpCopyAssign this other | OpMoveAssign this other =>
      this ≠ other → ∀ x, insts h !! this = Some x → not_last_owner h x
  | OpDefault _ | OpFromPointer _ _ _
  | OpCopyConstruct _ _ | OpMoveConstruct _ _ => True
  end.

(** A computation that never leaves by an exception. *)
Definition no_throw {A} (m : M A) : Prop := ∀ h h', m h ≠ Throw h'.

(** Both members null, or both non-null. *)
Definition paired (x : shared_ptr) : Prop :=
  match _ptr x, _ref_count x with
  | None, None => True
  | Some _, Some _ => True
  | _, _ => False
  end.




(** ** Ownership *)

(** What the instance [x] adds to the number of owners of the block [c]. *)
Definition counts (c : loc) (x : shared_ptr) : nat :=
  if decide (_ref_count x = Some c) then 1%nat else 0%nat.

(** The number of live instances that reference the control block [c]. *)
Definition owners (m : gmap positive shared_ptr) (c : loc) : nat :=
  size (filter (λ kv : positive * shared_ptr, _ref_count kv.2 = Some c) m).

Definition null_sp : shared_ptr := mk_shared_ptr None None.

(** The ownership invariant, over the instances [I], the control blocks [C]
    and the managed objects [O] of a heap. *)
Record wf_parts (I : gmap positive shared_ptr) (C : gmap positive Z)
    (O : gmap positive alloc_form) : Prop := {
  (* both members of an instance are null, or both non-null *)
  wf_paired : map_Forall (λ _ x, paired x) I;
  (* the instances fit the address space *)
  wf_size : Z.of_nat (size I) ≤ SIZE_MAX;
  (* the control block an instance references is live *)
  wf_block : ∀ a x c, I !! a = Some x → _ref_count x = Some c → is_Some (C !! c);
  (* the counter of a live block is the number of its owners, at least 1 *)
  wf_count : ∀ c n, C !! c = Some n → n = Z.of_nat (owners I c) ∧ 1 ≤ n;
  (* instances share the control block exactly when they share the object *)
  wf_same : ∀ a b x y, I !! a = Some x → I !! b = Some y →
            (_ref_count x = _ref_count y ↔ _ptr x = _ptr y);
  (* the object an instance points to is a live object made by new *)
  wf_object : ∀ a x p, I !! a = Some x → _ptr x = Some p → O !! p = Some by_new
}.

Definition well_formed (h : heap) : Prop := wf_parts (insts h) (ctrl h) (objs h).

(** No instance points to the object at [p]. *)
Definition unowned (h : heap) (p : loc) : Prop :=
  ∀ b x, insts h !! b = Some x → _ptr x ≠ Some p.

(** What the caller and the allocator owe to an operation: a constructor
    runs on storage where no instance lives, within the address space; a raw
    pointer handed over is a live object made by [new] that no instance
    owns; [new] returns the address of no live block. *)
Definition precondition (h : heap) (o : operation) : Prop :=
  match o with
  | OpDefault this | OpCopyConstruct this _ | OpMoveConstruct this _ =>
      insts h !! this = None ∧ Z.of_nat (size (insts h)) < SIZE_MAX
  | OpFromPointer this p na =>
      insts h !! this = None ∧ Z.of_nat (size (insts h)) < SIZE_MAX ∧
      (∀ q, p = Some q → objs h !! q = Some by_new ∧ unowned h q) ∧
      (∀ c, na = Some c → ctrl h !! c = None)
  | OpReset this p na =>
      (∀ q, p = Some q → objs h !! q = Some by_new ∧ unowned h q) ∧
      (∀ c h1, na = Some c → release this h = Ok tt h1 → ctrl h1 !! c = None)
  | OpDestroy _ | OpCopyAssign _ _ | OpMoveAssign _ _ => True
  end.

(** The instances an operation works on are live. *)
Definition operands_live (h : heap) (o : operation) : Prop :=
  match o with
  | OpDefault _ | OpFromPointer _ _ _ => True
  | OpDestroy this | OpReset this _ _ => is_Some (insts h !! this)
  | OpCopyConstruct _ other | OpMoveConstruct _ other => is_Some (insts h !! other)
  | OpCopyAssign this other | OpMoveAssign this other =>
      is_Some (insts h !! this) ∧ is_Some (insts h !! other)
  end.


(** ** Frames, scopes and the event log *)

(** The instances whose members an operation may write. *)
Definition written (o : operation) : list positive :=
  match o with
  | OpDefault this | OpFromPointer this _ _ | OpDestroy this
  | OpCopyConstruct this _ | OpCopyAssign this _ | OpReset this _ _ => [this]
  | OpMoveConstruct this other | OpMoveAssign this other => [this; other]
  end.

(** The instances an operation reads or writes. *)
Definition operands (o : operation) : list positive :=
  match o with
  | OpDefault this | OpFromPointer this _ _ | OpDestroy this
  | OpReset this _ _ => [this]
  | OpCopyConstruct this other | OpCopyAssign this other
  | OpMoveConstruct this other | OpMoveAssign this other => [this; other]
  end.

(** The instance an operation is called on. *)
Definition this_of (o : operation) : positive :=
  match o with
  | OpDefault this | OpFromPointer this _ _ | OpDestroy this
  | OpCopyConstruct this _ | OpCopyAssign this _
  | OpMoveConstruct this _ | OpMoveAssign this _ | OpReset this _ _ => this
  end.

(** The address [new] returns to an operation that allocates. *)
Definition allocation (o : operation) : option positive :=
  match o with
  | OpFromPointer _ (Some _) na | OpReset _ (Some _) na => na
  | _ => None
  end.

(** [body] run inside nested scopes that each hold a copy of [a]: a copy is
    constructed at each address of [bs] and destroyed at the end of its
    scope, after the inner ones. *)
Fixpoint in_copy_scopes {A} (bs : list positive) (a : positive) (body : M A)
    : M A :=
  match bs with
  | [] => body
  | b :: bs' =>
      ctor_copy b a;;
      r ← in_copy_scopes bs' a body;
      dtor b;;
      ret r
  end.




(** ** Array element forms *)

(** The typing of the declarations that decide whether [shared_ptr<T>] can
    be used at an element type [T]: the member [T* _ptr], the constructor
    parameter [T* p], and the call [std::default_delete<T>{}(_ptr)]. *)
Module Instantiation.

Inductive cxx_type :=
| Object (name : string)               (* a complete object type: int, a class *)
| ArrayUnknownBound (elem : cxx_type)  (* U[] *)
| Pointer (pointee : cxx_type).        (* pointer to U *)

#[global] Instance cxx_type_eq_dec : EqDecision cxx_type.
Proof. solve_decision. Defined.

Definition is_array_unknown_bound (t : cxx_type) : bool :=
  match t with
  | ArrayUnknownBound _ => true
  | _ => false
  end.

(** The element type of an array is not itself an array of unknown bound. *)
Fixpoint valid_type (t : cxx_type) : bool :=
  match t with
  | Object _ => true
  | ArrayUnknownBound e => valid_type e && negb (is_array_unknown_bound e)
  | Pointer u => valid_type u
  end.

(** The type of the member [_ptr] and of the constructor's parameter [p]. *)
Definition member_ptr_type (T : cxx_type) : cxx_type := Pointer T.

(** The type of the expressions [new U] and [new U[n]]: pointer to [U]. *)
Definition new_expression_type (U : cxx_type) : cxx_type := Pointer U.

(** Whether [std::default_delete<T>{}(e)] is a valid call for [e] of type
    [arg].  The primary template declares [void operator()(T* ptr) const].
    The specialisation for [T = E[]] declares a member template
    [template<class U> void operator()(U* ptr) const] that takes part in
    overload resolution only when pointer to array of unknown bound of [U]
    is a type and converts to pointer to array of unknown bound of [E]. *)
Definition default_delete_callable (T arg : cxx_type) : bool :=
  match T with
  | ArrayUnknownBound E =>
      match arg with
      | Pointer U =>
          valid_type (Pointer (ArrayUnknownBound U)) && bool_decide (U = E)
      | _ => false
      end
  | _ => bool_decide (arg = Pointer T)
  end.

(** The call in [release], [std::default_delete<T>{}(_ptr)], type-checks. *)
Definition release_well_formed (T : cxx_type) : bool :=
  default_delete_callable T (member_ptr_type T).

(** [shared_ptr<T> sp(e)] type-checks for [e] of type [arg].  The types of
    [cxx_type] have no base classes, so the only pointer type that converts
    to [T*] is [T*] itself; the conversion from pointer to derived class to
    pointer to base class is left out. *)
Definition ctor_accepts (T arg : cxx_type) : bool :=
  bool_decide (arg = member_ptr_type T).

End Instantiation.

(** ** Concrete heaps *)

(** One instance at address 1, sole owner of the object at 10 through the
    control block at 20. *)
Definition heap_sole : heap :=
  mk_heap {[ 1%positive := mk_shared_ptr (Some 10%positive) (Some 20%positive) ]}
          {[ 20%positive := 1 ]}
          {[ 10%positive := by_new ]}
          [].

(** Instances at 1 and 2 sharing the object at 10 and the block at 20. *)
Definition heap_shared : heap :=
  mk_heap {[ 1%positive := mk_shared_ptr (Some 10%positive) (Some 20%positive);
             2%positive := mk_shared_ptr (Some 10%positive) (Some 20%positive) ]}
          {[ 20%positive := 2 ]}
          {[ 10%positive := by_new ]}
          [].

(** Instances at 1 and 2, each the sole owner of an object of its own. *)
Definition heap_two : heap :=
  mk_heap {[ 1%positive := mk_shared_ptr (Some 10%positive) (Some 20%positive);
             2%positive := mk_shared_ptr (Some 11%positive) (Some 21%positive) ]}
          {[ 20%positive := 1; 21%positive := 1 ]}
          {[ 10%positive := by_new; 11%positive := by_new ]}
          [].

(** Instance 1 the sole owner of the object at 10; instances 2 and 3 sharing
    the object at 11 and the block at 21. *)
Definition heap_three : heap :=
  mk_heap {[ 1%positive := mk_shared_ptr (Some 10%positive) (Some 20%positive);
             2%positive := mk_shared_ptr (Some 11%positive) (Some 21%positive);
             3%positive := mk_shared_ptr (Some 11%positive) (Some 21%positive) ]}
          {[ 20%positive := 1; 21%positive := 2 ]}
          {[ 10%positive := by_new; 11%positive := by_new ]}
          [].

(** A null instance at 1, and an unowned object at 10 made by [new]. *)
Definition heap_null : heap :=
  mk_heap {[ 1%positive := mk_shared_ptr None None ]}
          ∅
          {[ 10%positive := by_new ]}
          [].

(** An instance of [shared_ptr<T>] at address 1 that was given the result of
    [new T[n]]: the sole owner of the array at 10. *)
Definition heap_array : heap :=
  mk_heap {[ 1%positive := mk_shared_ptr (Some 10%positive) (Some 20%positive) ]}
          {[ 20%positive := 1 ]}
          {[ 10%positive := by_new_array ]}
          [].

(** ** Proof support *)

Lemma bind_unfold {A B} (m : M A) (k : A → M B) (h : heap) :
  (m ≫= k) h = match m h with
               | Ok a h' => k a h'
               | Throw h' => Throw h'
               | UB => UB
               end.
Proof. reflexivity. Qed.

Lemma ret_unfold {A} (a : A) (h : heap) : mret (M := M) a h = Ok a h.
Proof. reflexivity. Qed.

(** Symbolic execution of a member function: unfold the monad and the
    primitive steps, reduce, and rewrite the lookups that hypotheses or the
    map laws settle. *)
Ltac exec :=
  repeat (progress (
    unfold mbind, M_bind, bind, mret, M_ret, ret, read_ptr, read_ref_count,
      write_ptr, write_ref_count, init, end_lifetime, new_atomic, fetch_add,
      fetch_sub, load, default_delete, delete_atomic, use_count, get,
      with_insts, with_ctrl, with_objs, log;
    cbn [insts ctrl objs trace _ptr _ref_count];
    rewrite ?lookup_insert_eq, ?insert_insert_eq, ?Z.eqb_refl;
    repeat match goal with
           | H : ?m !! ?k = _ |- context [?m !! ?k] => rewrite H
           | H : _ptr ?x = _ |- context [_ptr ?x] => rewrite H
           | H : _ref_count ?x = _ |- context [_ref_count ?x] => rewrite H
           end;
    try rewrite lookup_insert_ne by done)).

(** [exec] in a hypothesis. *)
Ltac exec_in H :=
  repeat (progress (
    unfold mbind, M_bind, bind, mret, M_ret, ret, read_ptr, read_ref_count,
      write_ptr, write_ref_count, init, end_lifetime, new_atomic, fetch_add,
      fetch_sub, load, default_delete, delete_atomic, use_count, get,
      with_insts, with_ctrl, with_objs, log in H;
    cbn [insts ctrl objs trace _ptr _ref_count] in H;
    rewrite ?lookup_insert_eq, ?insert_insert_eq, ?Z.eqb_refl in H;
    repeat match type of H with
           | context [?m !! ?k] =>
               match goal with
               | E : m !! k = _ |- _ => rewrite E in H
               end
           end;
    try rewrite lookup_insert_ne in H by done)).



(** ** Release *)

Lemma release_null (h : heap) (this : loc) (x : shared_ptr) :
  insts h !! this = Some x → _ref_count x = None →
  release this h = Ok tt h.
Proof.
  intros Hx Hc. unfold release. rewrite bind_unfold. unfold read_ref_count.
  rewrite Hx, Hc. reflexivity.
Qed.

Lemma release_shared (h : heap) (this : loc) (x : shared_ptr) (c : loc) (n : Z) :
  insts h !! this = Some x → _ref_count x = Some c → ctrl h !! c = Some n →
  n ≠ 1 →
  release this h = Ok tt (with_ctrl (insert c (size_t_wrap (n - 1))) h).
Proof.
  intros Hx Hc Hn H1. unfold release. rewrite bind_unfold. unfold read_ref_count.
  rewrite Hx, Hc. rewrite bind_unfold. unfold fetch_sub. rewrite Hn.
  destruct (Z.eqb_spec n 1); [done|]. reflexivity.
Qed.

Lemma release_last (h : heap) (this : loc) (x : shared_ptr) (c p : loc) :
  insts h !! this = Some x → _ref_count x = Some c → ctrl h !! c = Some 1 →
  _ptr x = Some p → objs h !! p = Some by_new →
  release this h =
    Ok tt (mk_heap (insts h) (delete c (ctrl h)) (delete p (objs h))
             (trace h ++ [EvDestroy p; EvFreeCtrl c])).
Proof.
  intros Hx Hc Hn Hp Ho. unfold release. rewrite bind_unfold. unfold read_ref_count.
  rewrite Hx, Hc. rewrite bind_unfold. unfold fetch_sub. rewrite Hn.
  change (1 =? 1) with true. cbv iota.
  rewrite bind_unfold. unfold read_ptr at 1, with_ctrl at 1. cbn [insts].
  rewrite Hx, Hp. rewrite bind_unfold. unfold default_delete, with_ctrl, with_objs, log.
  cbn [objs insts ctrl trace]. rewrite Ho.
  rewrite bind_unfold. cbn [insts]. rewrite Hx, Hc.
  unfold delete_atomic. cbn [ctrl insts objs trace]. rewrite lookup_insert_eq.
  unfold log, with_ctrl. cbn [insts ctrl objs trace].
  rewrite delete_insert_eq, <- app_assoc. reflexivity.
Qed.

Lemma release_last_null (h : heap) (this : loc) (x : shared_ptr) (c : loc) :
  insts h !! this = Some x → _ref_count x = Some c → ctrl h !! c = Some 1 →
  _ptr x = None →
  release this h =
    Ok tt (mk_heap (insts h) (delete c (ctrl h)) (objs h)
             (trace h ++ [EvFreeCtrl c])).
Proof.
  intros Hx Hc Hn Hp. unfold release. rewrite bind_unfold. unfold read_ref_count.
  rewrite Hx, Hc. rewrite bind_unfold. unfold fetch_sub. rewrite Hn.
  change (1 =? 1) with true. cbv iota.
  rewrite bind_unfold. unfold read_ptr at 1, with_ctrl at 1. cbn [insts].
  rewrite Hx, Hp. rewrite bind_unfold. unfold default_delete, with_ctrl.
  rewrite bind_unfold. cbn [insts]. rewrite Hx, Hc.
  unfold delete_atomic. cbn [ctrl insts objs trace]. rewrite lookup_insert_eq.
  unfold log, with_ctrl. cbn [insts ctrl objs trace].
  rewrite delete_insert_eq. reflexivity.
Qed.

(** Release writes no member of any instance, and returns only when the
    instance it is called on is live. *)
Lemma release_insts (h h1 : heap) (this : loc) (u : unit) :
  release this h = Ok u h1 → insts h1 = insts h ∧ is_Some (insts h !! this).
Proof.
  unfold release. rewrite bind_unfold. unfold read_ref_count at 1.
  destruct (insts h !! this) as [x|] eqn:Hx; [|done].
  destruct (_ref_count x) as [c|] eqn:Hc.
  - rewrite bind_unfold. unfold fetch_sub.
    destruct (ctrl h !! c) as [n|]; [|done].
    destruct (n =? 1).
    + rewrite bind_unfold. unfold read_ptr, with_ctrl. cbn [insts]. rewrite Hx.
      rewrite bind_unfold. unfold default_delete.
      destruct (_ptr x) as [p|].
      * cbn [objs]. destruct (objs h !! p) as [[]|]; [|done..].
        rewrite bind_unfold. unfold read_ref_count, log, with_objs. cbn [insts].
        rewrite Hx, Hc. unfold delete_atomic. cbn [ctrl].
        rewrite lookup_insert_eq. intros ?; simplify_eq; eauto.
      * rewrite bind_unfold. unfold read_ref_count. cbn [insts].
        rewrite Hx, Hc. unfold delete_atomic. cbn [ctrl].
        rewrite lookup_insert_eq. intros ?; simplify_eq; eauto.
    + rewrite ret_unfold. intros ?; simplify_eq; eauto.
  - rewrite ret_unfold. intros ?; simplify_eq; eauto.
Qed.

Lemma release_inv (h h1 : heap) (this : loc) (u : unit) :
  release this h = Ok u h1 →
  ∃ x, insts h !! this = Some x ∧ released h x h1.
Proof.
  intros Hrel.
  destruct (release_insts _ _ _ _ Hrel) as [_ [x Hx]]. exists x. split; [done|].
  destruct u.
  destruct (_ref_count x) as [c|] eqn:Hc.
  - destruct (ctrl h !! c) as [n|] eqn:Hn.
    + destruct (decide (n = 1)) as [->|Hne].
      * destruct (_ptr x) as [p|] eqn:Hp.
        -- destruct (objs h !! p) as [[]|] eqn:Ho.
           ++ rewrite (release_last h this x c p) in Hrel by done.
              injection Hrel as <-. by eapply released_last.
           ++ exfalso. revert Hrel. unfold release. exec. done.
           ++ exfalso. revert Hrel. unfold release. exec. done.
        -- rewrite (release_last_null h this x c) in Hrel by done.
           injection Hrel as <-. by eapply released_last_null.
      * rewrite (release_shared h this x c n) in Hrel by done.
        injection Hrel as <-. by eapply released_shared.
    + exfalso. revert Hrel. unfold release. exec. done.
  - rewrite (release_null h this x) in Hrel by done.
    injection Hrel as <-. by apply released_null.
Qed.

(** Release deletes no object but the one the instance points to. *)
Lemma released_objs (h h1 : heap) (x : shared_ptr) (p : loc) :
  released h x h1 → _ptr x ≠ Some p → objs h1 !! p = objs h !! p.
Proof.
  intros Hrel Hp. destruct Hrel as [| | c q Hc Hn Hq Ho |]; cbn [objs with_ctrl]; try done.
  rewrite lookup_delete_ne; [done|congruence].
Qed.

(** Under [releasable], release returns normally, leaves every instance as
    it was and touches no control block but the instance's own. *)
Lemma release_frame (h : heap) (this : loc) (x : shared_ptr) :
  insts h !! this = Some x → releasable h x →
  ∃ h1, release this h = Ok tt h1 ∧ insts h1 = insts h ∧
        ∀ c, _ref_count x ≠ Some c → ctrl h1 !! c = ctrl h !! c.
Proof.
  intros Hx Hr. unfold releasable in Hr.
  destruct (_ref_count x) as [c|] eqn:Hc.
  - destruct (ctrl h !! c) as [n|] eqn:Hn; [|done].
    destruct (decide (n = 1)) as [->|Hne].
    + specialize (Hr eq_refl). destruct (_ptr x) as [p|] eqn:Hp.
      * eexists. split; [by eapply release_last|]. split; [done|].
        intros c' Hc'. cbn. rewrite lookup_delete_ne; [done|congruence].
      * eexists. split; [by eapply release_last_null|]. split; [done|].
        intros c' Hc'. cbn. rewrite lookup_delete_ne; [done|congruence].
    + eexists. split; [by eapply release_shared|]. split; [done|].
      intros c' Hc'. cbn. rewrite lookup_insert_ne; [done|congruence].
  - exists h. split; [by eapply release_null|]. done.
Qed.

(** A release by an instance that is not the last owner deletes and frees
    nothing. *)
Lemma released_keeps (h h1 : heap) (x : shared_ptr) :
  released h x h1 → not_last_owner h x →
  objs h1 = objs h ∧ trace h1 = trace h.
Proof.
  intros Hrel Hk. unfold not_last_owner in Hk.
  destruct Hrel as [Hc|c n Hc Hn Hne|c p Hc Hn Hp Ho|c Hc Hn Hp]; try done.
  all: rewrite Hc in Hk; destruct Hk as (n & Hn' & Hne); congruence.
Qed.




(** ** Operations that cannot throw *)

Lemma no_throw_bind {A B} (m : M A) (k : A → M B) :
  no_throw m → (∀ a, no_throw (k a)) → no_throw (m ≫= k).
Proof.
  intros Hm Hk h h'. rewrite bind_unfold.
  destruct (m h) as [a h1| h1|] eqn:E; [apply Hk| by apply Hm in E |done].
Qed.

Lemma no_throw_ret {A} (a : A) : no_throw (mret a : M A).
Proof. intros h h'. by rewrite ret_unfold. Qed.

Lemma no_throw_read_ptr a : no_throw (read_ptr a).
Proof. intros h h'. unfold read_ptr. by destruct (insts h !! a). Qed.

Lemma no_throw_read_ref_count a : no_throw (read_ref_count a).
Proof. intros h h'. unfold read_ref_count. by destruct (insts h !! a). Qed.

Lemma no_throw_write_ptr a p : no_throw (write_ptr a p).
Proof. intros h h'. unfold write_ptr. by destruct (insts h !! a). Qed.

Lemma no_throw_write_ref_count a c : no_throw (write_ref_count a c).
Proof. intros h h'. unfold write_ref_count. by destruct (insts h !! a). Qed.

Lemma no_throw_init a x : no_throw (init a x).
Proof. by intros h h'. Qed.

Lemma no_throw_fetch_sub c k mo : no_throw (fetch_sub c k mo).
Proof. intros h h'. unfold fetch_sub. by destruct (ctrl h !! c). Qed.

Lemma no_throw_default_delete p : no_throw (default_delete p).
Proof.
  intros h h'. unfold default_delete. destruct p as [q|]; [|done].
  by destruct (objs h !! q) as [[]|].
Qed.

Lemma no_throw_delete_atomic c : no_throw (delete_atomic c).
Proof. intros h h'. unfold delete_atomic. by destruct (ctrl h !! c). Qed.

Create HintDb no_throw_db.
#[global] Hint Resolve no_throw_ret no_throw_read_ptr no_throw_read_ref_count
  no_throw_write_ptr no_throw_write_ref_count no_throw_init no_throw_fetch_sub
  no_throw_default_delete no_throw_delete_atomic : no_throw_db.

Lemma no_throw_release this : no_throw (release this).
Proof.
  unfold release. apply no_throw_bind; [auto with no_throw_db|].
  intros [c|]; [|auto with no_throw_db].
  apply no_throw_bind; [auto with no_throw_db|]. intros old.
  destruct (old =? 1); [|auto with no_throw_db].
  apply no_throw_bind; [auto with no_throw_db|]. intros p.
  apply no_throw_bind; [auto with no_throw_db|]. intros _.
  apply no_throw_bind; [auto with no_throw_db|].
  intros [c'|]; auto with no_throw_db.
Qed.

Lemma no_throw_ctor_move this other : no_throw (ctor_move this other).
Proof.
  unfold ctor_move.
  repeat (apply no_throw_bind; [auto with no_throw_db|intros ?]);
    auto with no_throw_db.
Qed.

Lemma no_throw_assign_move this other : no_throw (assign_move this other).
Proof.
  unfold assign_move. destruct (decide (this ≠ other)); [|auto with no_throw_db].
  apply no_throw_bind; [apply no_throw_release|intros ?].
  repeat (apply no_throw_bind; [auto with no_throw_db|intros ?]);
    auto with no_throw_db.
Qed.

(** What runs after a release that did not go wrong runs on a heap with the
    same instances. *)
Lemma after_release (h : heap) (this : loc) (k : M unit) (r : outcome unit) :
  (release this;; k) h = r → r ≠ UB →
  ∃ h1 y, insts h1 = insts h ∧ insts h !! this = Some y ∧ k h1 = r.
Proof.
  rewrite bind_unfold. destruct (release this h) as [[] h1|h1|] eqn:Hrel.
  - intros <- _. apply release_insts in Hrel as [Hi [y Hy]]. eauto.
  - by apply no_throw_release in Hrel.
  - by intros <-.
Qed.

(** ** Copy *)

Lemma use_count_owning (h : heap) (a : loc) (x : shared_ptr) (c : loc) (n : Z) :
  insts h !! a = Some x → _ref_count x = Some c → ctrl h !! c = Some n →
  use_count a h = Ok n h.
Proof.
  intros Hx Hc Hn. unfold use_count. rewrite bind_unfold. unfold read_ref_count.
  rewrite Hx, Hc. unfold load. by rewrite Hn.
Qed.

Lemma use_count_null (h : heap) (a : loc) (x : shared_ptr) :
  insts h !! a = Some x → _ref_count x = None → use_count a h = Ok 0 h.
Proof.
  intros Hx Hc. unfold use_count. rewrite bind_unfold. unfold read_ref_count.
  by rewrite Hx, Hc.
Qed.

Lemma get_live (h : heap) (a : loc) (x : shared_ptr) :
  insts h !! a = Some x → get a h = Ok (_ptr x) h.
Proof. intros Hx. unfold get, read_ptr. by rewrite Hx. Qed.

Lemma ctor_copy_owning (h : heap) (a b : loc) (x : shared_ptr) (c : loc) (n : Z) :
  insts h !! a = Some x → _ref_count x = Some c → ctrl h !! c = Some n →
  ctor_copy b a h =
    Ok tt (mk_heap (<[b := mk_shared_ptr (_ptr x) (Some c)]> (insts h))
             (<[c := size_t_wrap (n + 1)]> (ctrl h)) (objs h) (trace h)).
Proof.
  intros Hx Hc Hn. unfold ctor_copy.
  rewrite bind_unfold. unfold read_ptr at 1. rewrite Hx.
  rewrite bind_unfold. unfold read_ref_count at 1. rewrite Hx, Hc.
  rewrite bind_unfold. unfold init, with_insts.
  rewrite bind_unfold. unfold read_ref_count. cbn [insts].
  rewrite lookup_insert_eq. cbn [_ref_count].
  rewrite bind_unfold. unfold fetch_add. cbn [ctrl]. rewrite Hn.
  reflexivity.
Qed.

(** Copy assignment between distinct instances, from the heap [h1] that
    [release] leaves. *)
Lemma assign_copy_from (h h1 : heap) (this other : loc) (x y : shared_ptr)
    (c : loc) (m : Z) :
  this ≠ other → release this h = Ok tt h1 →
  insts h1 !! this = Some y → insts h1 !! other = Some x →
  _ref_count x = Some c → ctrl h1 !! c = Some m →
  assign_copy this other h =
    Ok tt (mk_heap (<[this := mk_shared_ptr (_ptr x) (Some c)]> (insts h1))
             (<[c := size_t_wrap (m + 1)]> (ctrl h1)) (objs h1) (trace h1)).
Proof.
  intros Hne Hrel Hy Hx Hc Hm. unfold assign_copy.
  destruct (decide (this ≠ other)) as [_|]; [|done].
  rewrite bind_unfold, Hrel.
  rewrite bind_unfold. unfold read_ptr at 1. rewrite Hx.
  rewrite bind_unfold. unfold write_ptr, with_insts. rewrite Hy.
  rewrite bind_unfold. unfold read_ref_count at 1. cbn [insts].
  rewrite lookup_insert_ne by done. rewrite Hx, Hc.
  rewrite bind_unfold. unfold write_ref_count, with_insts. cbn [insts ctrl objs trace].
  rewrite lookup_insert_eq. cbn [_ptr].
  rewrite bind_unfold. unfold read_ref_count. cbn [insts].
  rewrite lookup_insert_eq. cbn [_ref_count].
  rewrite bind_unfold. unfold fetch_add. cbn [ctrl]. rewrite Hm.
  rewrite insert_insert_eq. reflexivity.
Qed.




(** ** Self-assignment *)

(** C5: [a = a], by copy or by move, returns normally with the heap exactly
    as it was: the test [this != &other] comes first and nothing is read or
    written after it, so [a.use_count()] and [a.get()] are as before and
    nothing is destroyed. *)
Theorem self_assignment_noop (h : heap) (a : loc) :
  assign_copy a a h = Ok tt h ∧ assign_move a a h = Ok tt h ∧
  (assign_copy a a;; use_count a) h = use_count a h ∧
  (assign_copy a a;; get a) h = get a h ∧
  (assign_move a a;; use_count a) h = use_count a h ∧
  (assign_move a a;; get a) h = get a h.
Proof.
  assert (Hc : assign_copy a a h = Ok tt h).
  { unfold assign_copy. destruct (decide (a ≠ a)); [done|reflexivity]. }
  assert (Hm : assign_move a a h = Ok tt h).
  { unfold assign_move. destruct (decide (a ≠ a)); [done|reflexivity]. }
  repeat split; try done; by rewrite bind_unfold, ?Hc, ?Hm.
Qed.

(** ** The steps of a move *)

Lemma ctor_move_live (h : heap) (this other : loc) (x : shared_ptr) :
  this ≠ other → insts h !! other = Some x →
  ctor_move this other h =
    Ok tt (with_insts (λ m, <[other := mk_shared_ptr None None]> (<[this := x]> m)) h).
Proof.
  intros Hne Hx. unfold ctor_move.
  rewrite bind_unfold. unfold read_ptr at 1. rewrite Hx.
  rewrite bind_unfold. unfold read_ref_count at 1. rewrite Hx.
  rewrite bind_unfold. unfold init, with_insts.
  rewrite bind_unfold. unfold write_ptr, with_insts. cbn [insts ctrl objs trace].
  rewrite lookup_insert_ne by done. rewrite Hx.
  unfold write_ref_count, with_insts. cbn [insts ctrl objs trace].
  rewrite lookup_insert_eq. cbn [_ptr]. rewrite insert_insert_eq.
  by destruct x.
Qed.



(** ** Reset and allocation failure *)




(** When [new] throws in [reset], the release has been done and [_ptr] has
    been assigned; [_ref_count] still holds its old value. *)
Lemma reset_fail_from (h h1 : heap) (this q : loc) (y : shared_ptr) :
  release this h = Ok tt h1 → insts h !! this = Some y →
  reset this (Some q) None h =
    Throw (with_insts (insert this (mk_shared_ptr (Some q) (_ref_count y))) h1).
Proof.
  intros Hrel Hy. unfold reset. rewrite bind_unfold, Hrel.
  apply release_insts in Hrel as [Hi _]. rewrite <- Hi in Hy.
  exec. reflexivity.
Qed.



(** C3, as amended: when the allocation of the control block fails, the
    error leaves the constructor, or [reset], and reaches the caller; the
    object at [p] is not destroyed on that path.  The constructor leaves the
    heap as it was.  [reset] has by then released what the instance owned;
    the failure itself deletes nothing and frees nothing, so an object at
    [p] other than the one just released is as it was before the call. *)
Theorem alloc_failure_keeps_object (h : heap) (this p : loc) :
  ctor_ptr this (Some p) None h = Throw h ∧
  (∀ y, insts h !! this = Some y → releasable h y →
     ∃ h1 h', release this h = Ok tt h1 ∧
              reset this (Some p) None h = Throw h' ∧
              objs h' = objs h1 ∧ ctrl h' = ctrl h1 ∧ trace h' = trace h1 ∧
              (_ptr y ≠ Some p → objs h' !! p = objs h !! p)).
Proof.
  split; [reflexivity|].
  intros y Hy Hrel.
  destruct (release_frame h this y Hy Hrel) as (h1 & Hr & Hi & _).
  exists h1. eexists. split; [done|].
  split; [by eapply reset_fail_from|].
  unfold with_insts. cbn [insts ctrl objs trace].
  repeat split. intros Hp.
  destruct (release_inv _ _ _ _ Hr) as (y' & Hy' & Hd).
  assert (y' = y) as -> by congruence.
  by eapply released_objs.
Qed.

Lemma alloc_failure_keeps_object_witness :
  ∃ h1 h', release 1%positive heap_null = Ok tt h1 ∧
           reset 1%positive (Some 10%positive) None heap_null = Throw h' ∧
           objs h' = objs h1 ∧ ctrl h' = ctrl h1 ∧ trace h' = trace h1 ∧
           (None ≠ Some 10%positive →
            objs h' !! 10%positive = objs heap_null !! 10%positive).
Proof.
  refine (proj2 (alloc_failure_keeps_object heap_null 1%positive 10%positive)
            (mk_shared_ptr None None) eq_refl _).
  exact I.
Defined.

(** C3 fails: the constructor is given the live object at 10 and the
    allocation of the control block fails; the error surfaces with the
    object still alive and no destruction logged. *)
Lemma ctor_alloc_failure_counterexample :
  objs heap_null !! 10%positive = Some by_new ∧
  ∃ h', ctor_ptr 2%positive (Some 10%positive) None heap_null = Throw h' ∧
        objs h' !! 10%positive = Some by_new ∧
        EvDestroy 10%positive ∉ trace h'.
Proof.
  split; [reflexivity|]. eexists. split; [reflexivity|].
  split; [reflexivity|]. cbn. apply not_elem_of_nil.
Qed.

(** ** The pairing invariant *)

















(** ** The ownership invariant *)

Lemma owners_delete (m : gmap positive shared_ptr) (a c : positive) :
  (owners (delete a m) c + from_option (counts c) 0 (m !! a) = owners m c)%nat.
Proof.
  unfold owners, counts.
  set (P := λ kv : positive * shared_ptr, _ref_count kv.2 = Some c).
  rewrite map_filter_delete, map_size_delete.
  destruct (m !! a) as [x|] eqn:Hx; cbn [from_option].
  - destruct (decide (_ref_count x = Some c)) as [Hc|Hc].
    + assert (Hf : filter P m !! a = Some x)
        by (by apply map_lookup_filter_Some).
      rewrite Hf.
      assert (size (filter P m) ≠ 0%nat).
      { apply map_size_ne_0_lookup. eauto. }
      lia.
    + assert (Hf : filter P m !! a = None).
      { apply map_lookup_filter_None. right. intros y Hy. unfold P. cbn. congruence. }
      rewrite Hf. cbn. lia.
  - assert (Hf : filter P m !! a = None).
    { apply map_lookup_filter_None. by left. }
    rewrite Hf. cbn. lia.
Qed.

Lemma owners_insert (m : gmap positive shared_ptr) (a c : positive) (x : shared_ptr) :
  (owners (<[a:=x]> m) c + from_option (counts c) 0 (m !! a)
   = owners m c + counts c x)%nat.
Proof.
  pose proof (owners_delete m a c) as Hd.
  pose proof (owners_delete (<[a:=x]> m) a c) as Hi.
  rewrite lookup_insert_eq, delete_insert_eq in Hi. cbn [from_option] in Hi. lia.
Qed.

Lemma owners_le_size (m : gmap positive shared_ptr) (c : positive) :
  (owners m c ≤ size m)%nat.
Proof. unfold owners. apply map_subseteq_size, map_filter_subseteq. Qed.

Lemma owners_one (m : gmap positive shared_ptr) (a c : positive) (x : shared_ptr) :
  m !! a = Some x → _ref_count x = Some c → (1 ≤ owners m c)%nat.
Proof.
  intros Hx Hc. pose proof (owners_delete m a c) as Hd. rewrite Hx in Hd.
  cbn in Hd. unfold counts in Hd. rewrite decide_True in Hd by done. lia.
Qed.

Lemma owners_two (m : gmap positive shared_ptr) (a b c : positive) (x y : shared_ptr) :
  a ≠ b → m !! a = Some x → m !! b = Some y →
  _ref_count x = Some c → _ref_count y = Some c → (2 ≤ owners m c)%nat.
Proof.
  intros Hne Hx Hy Hcx Hcy. pose proof (owners_delete m a c) as Hd. rewrite Hx in Hd.
  cbn in Hd. unfold counts in Hd. rewrite decide_True in Hd by done.
  assert (1 ≤ owners (delete a m) c)%nat.
  { eapply (owners_one _ b c y); [|done]. by rewrite lookup_delete_ne. }
  lia.
Qed.

Lemma counts_null c : counts c null_sp = 0%nat.
Proof. done. Qed.

Lemma paired_null_iff (x : shared_ptr) :
  paired x → _ref_count x = None → x = null_sp.
Proof. destruct x as [[p|] [c|]]; cbn; intros; simplify_eq; done. Qed.

(** The owner count of a block no instance references. *)
Lemma owners_none (I : gmap positive shared_ptr) (c : positive) :
  (∀ a x, I !! a = Some x → _ref_count x ≠ Some c) → owners I c = 0%nat.
Proof.
  intros Hn. unfold owners. rewrite (map_empty_filter_2 _ I); [done|].
  intros a x Hx. cbn. by apply (Hn a x).
Qed.

Ltac lookup_cases H :=
  apply lookup_insert_Some in H as [[<- <-]|[? H]].

Lemma same_null_l (x : shared_ptr) :
  paired x → (_ref_count null_sp = _ref_count x ↔ _ptr null_sp = _ptr x).
Proof. destruct x as [[p|] [c|]]; cbn; intros; split; intros; simplify_eq; done. Qed.

Lemma same_null_r (x : shared_ptr) :
  paired x → (_ref_count x = _ref_count null_sp ↔ _ptr x = _ptr null_sp).
Proof. destruct x as [[p|] [c|]]; cbn; intros; split; intros; simplify_eq; done. Qed.

Lemma counts_yes c x : _ref_count x = Some c → counts c x = 1%nat.
Proof. intros H. unfold counts. by rewrite decide_True. Qed.

Lemma counts_no c x : _ref_count x ≠ Some c → counts c x = 0%nat.
Proof. intros H. unfold counts. by rewrite decide_False. Qed.

Lemma wf_insert_null I C O a :
  wf_parts I C O → I !! a = None → Z.of_nat (size I) < SIZE_MAX →
  wf_parts (<[a := null_sp]> I) C O.
Proof.
  intros [Hp Hs Hb Hc Hsm Ho] Ha Hlt. split.
  - by apply map_Forall_insert_2.
  - rewrite map_size_insert_None by done. lia.
  - intros b x c Hx Hcx. lookup_cases Hx; [done|]. eauto.
  - intros c n Hn. destruct (Hc c n Hn) as [-> ?]. split; [|done].
    pose proof (owners_insert I a c null_sp) as E.
    rewrite Ha in E. cbn [from_option] in E. rewrite ?counts_null in E. lia.
  - intros b1 b2 x y Hx Hy. lookup_cases Hx; lookup_cases Hy; eauto.
    + apply same_null_l. eauto.
    + apply same_null_r. eauto.
  - intros b x p Hx Hpx. lookup_cases Hx; [done|]. eauto.
Qed.

(** An instance gives up its reference to a block that has other owners. *)
Lemma wf_drop_shared I C O a y c n :
  wf_parts I C O → I !! a = Some y → _ref_count y = Some c →
  C !! c = Some n → n ≠ 1 →
  wf_parts (<[a := null_sp]> I) (<[c := n - 1]> C) O.
Proof.
  intros [Hp Hs Hb Hc Hsm Ho] Ha Hy Hn Hne. split.
  - by apply map_Forall_insert_2.
  - rewrite map_size_insert_Some by eauto. lia.
  - intros b x c' Hx Hcx. lookup_cases Hx; [done|].
    apply lookup_insert_is_Some'. right. eauto.
  - intros c' n' Hn'.
    pose proof (owners_insert I a c' null_sp) as E.
    rewrite Ha in E. cbn [from_option] in E. rewrite ?counts_null in E.
    apply lookup_insert_Some in Hn' as [[<- <-]|[Hcc Hn']].
    + destruct (Hc c n Hn) as [-> ?]. rewrite (counts_yes c y) in E by done. lia.
    + destruct (Hc c' n' Hn') as [-> ?].
      rewrite (counts_no c' y) in E by congruence. lia.
  - intros b1 b2 x z Hx Hz. lookup_cases Hx; lookup_cases Hz; eauto.
    + apply same_null_l. eauto.
    + apply same_null_r. eauto.
  - intros b x p Hx Hpx. lookup_cases Hx; [done|]. eauto.
Qed.

(** The last owner gives up its reference: block and object go. *)
Lemma wf_drop_last I C O a y c p :
  wf_parts I C O → I !! a = Some y → _ref_count y = Some c →
  C !! c = Some 1 → _ptr y = Some p →
  wf_parts (<[a := null_sp]> I) (delete c C) (delete p O).
Proof.
  intros [Hp Hs Hb Hc Hsm Ho] Ha Hy Hn Hpy.
  assert (Hsole : ∀ b x, b ≠ a → I !! b = Some x → _ref_count x ≠ Some c).
  { intros b x Hne Hx Hcx.
    pose proof (owners_two I a b c y x (not_eq_sym Hne) Ha Hx Hy Hcx).
    destruct (Hc c 1 Hn) as [? _]. lia. }
  split.
  - by apply map_Forall_insert_2.
  - rewrite map_size_insert_Some by eauto. lia.
  - intros b x c' Hx Hcx. lookup_cases Hx; [done|].
    rewrite lookup_delete_ne; [eauto|]. intros <-. by eapply Hsole.
  - intros c' n' Hn'. apply lookup_delete_Some in Hn' as [Hcc Hn'].
    pose proof (owners_insert I a c' null_sp) as E.
    rewrite Ha in E. cbn [from_option] in E. rewrite ?counts_null in E.
    destruct (Hc c' n' Hn') as [-> ?].
    rewrite (counts_no c' y) in E by congruence. lia.
  - intros b1 b2 x z Hx Hz. lookup_cases Hx; lookup_cases Hz; eauto.
    + apply same_null_l. eauto.
    + apply same_null_r. eauto.
  - intros b x p' Hx Hpx. lookup_cases Hx; [done|].
    rewrite lookup_delete_ne; [eauto|]. intros <-.
    eapply (Hsole b x); [done|done|].
    rewrite <- Hy. apply (Hsm b a x y Hx Ha). congruence.
Qed.

(** A null instance adopts the pair of an owning instance. *)
Lemma wf_adopt_copy I C O a x b c n :
  wf_parts I C O → I !! a = Some null_sp → I !! b = Some x →
  _ref_count x = Some c → C !! c = Some n →
  wf_parts (<[a := mk_shared_ptr (_ptr x) (Some c)]> I) (<[c := n + 1]> C) O.
Proof.
  intros [Hp Hs Hb Hc Hsm Ho] Ha Hx Hcx Hn.
  assert (Hpx : ∃ p, _ptr x = Some p).
  { pose proof (Hp _ _ Hx) as P. unfold paired in P. rewrite Hcx in P.
    destruct (_ptr x); [eauto|done]. }
  destruct Hpx as [p Hpx]. split.
  - apply map_Forall_insert_2; [|done]. unfold paired. cbn. by rewrite Hpx.
  - rewrite map_size_insert_Some by eauto. lia.
  - intros b' z c' Hz Hcz. apply lookup_insert_is_Some'.
    lookup_cases Hz; cbn in *; [left; congruence|right; eauto].
  - intros c' n' Hn'.
    pose proof (owners_insert I a c' (mk_shared_ptr (_ptr x) (Some c))) as E.
    rewrite Ha in E. cbn [from_option] in E. rewrite ?counts_null in E.
    apply lookup_insert_Some in Hn' as [[<- <-]|[Hcc Hn']].
    + destruct (Hc c n Hn) as [-> ?]. rewrite counts_yes in E by done. lia.
    + destruct (Hc c' n' Hn') as [-> ?].
      rewrite counts_no in E by (cbn; congruence). lia.
  - intros b1 b2 z1 z2 Hz1 Hz2.
    lookup_cases Hz1; lookup_cases Hz2; cbn [_ptr _ref_count]; eauto; try done;
      rewrite <- Hcx; eauto.
  - intros b' z p' Hz Hpz. lookup_cases Hz; cbn in *; eauto.
Qed.

(** A null instance adopts a raw pointer with a new block. *)
Lemma wf_adopt_new I C O a p c :
  wf_parts I C O → I !! a = Some null_sp → C !! c = None →
  O !! p = Some by_new → (∀ b x, I !! b = Some x → _ptr x ≠ Some p) →
  wf_parts (<[a := mk_shared_ptr (Some p) (Some c)]> I) (<[c := 1]> C) O.
Proof.
  intros [Hp Hs Hb Hc Hsm Ho] Ha Hn Hop Hfresh.
  assert (Hnone : ∀ b x, I !! b = Some x → _ref_count x ≠ Some c).
  { intros b x Hx Hcx. destruct (Hb b x c Hx Hcx) as [? ?]. congruence. }
  split.
  - by apply map_Forall_insert_2.
  - rewrite map_size_insert_Some by eauto. lia.
  - intros b' z c' Hz Hcz. apply lookup_insert_is_Some'.
    lookup_cases Hz; cbn in *; [left; congruence|right; eauto].
  - intros c' n' Hn'.
    pose proof (owners_insert I a c' (mk_shared_ptr (Some p) (Some c))) as E.
    rewrite Ha in E. cbn [from_option] in E. rewrite ?counts_null in E.
    apply lookup_insert_Some in Hn' as [[<- <-]|[Hcc Hn']].
    + rewrite counts_yes in E by done. rewrite (owners_none I c) in E by done.
      lia.
    + destruct (Hc c' n' Hn') as [-> ?].
      rewrite counts_no in E by (cbn; congruence). lia.
  - intros b1 b2 z1 z2 Hz1 Hz2.
    lookup_cases Hz1; lookup_cases Hz2; cbn [_ptr _ref_count]; eauto; try done.
    + split; intros E; symmetry in E; exfalso; [eapply Hnone|eapply Hfresh]; eauto.
    + split; intros E; exfalso; [eapply Hnone|eapply Hfresh]; eauto.
  - intros b' z p' Hz Hpz. lookup_cases Hz; cbn in *; [congruence|eauto].
Qed.

(** A null instance takes over the pair of another, which becomes null. *)
Lemma wf_move I C O a b x :
  wf_parts I C O → a ≠ b → I !! a = Some null_sp → I !! b = Some x →
  wf_parts (<[b := null_sp]> (<[a := x]> I)) C O.
Proof.
  intros [Hp Hs Hb Hc Hsm Ho] Hne Ha Hx. split.
  - apply map_Forall_insert_2; [done|]. apply map_Forall_insert_2; [|done]. eauto.
  - rewrite !map_size_insert_Some; [lia|eauto|].
    rewrite lookup_insert_ne by done. eauto.
  - intros b' z c' Hz Hcz. lookup_cases Hz; [done|]. lookup_cases Hz; eauto.
  - intros c' n' Hn'. destruct (Hc c' n' Hn') as [-> ?]. split; [|done].
    pose proof (owners_insert I a c' x) as E1.
    pose proof (owners_insert (<[a:=x]> I) b c' null_sp) as E2.
    rewrite lookup_insert_ne in E2 by done.
    rewrite Ha in E1. rewrite Hx in E2. cbn [from_option] in E1, E2.
    rewrite counts_null in E1, E2. lia.
  - intros b1 b2 z1 z2 Hz1 Hz2.
    lookup_cases Hz1; [|lookup_cases Hz1]; (lookup_cases Hz2; [|lookup_cases Hz2]);
      eauto using same_null_l, same_null_r.
  - intros b' z p' Hz Hpz. lookup_cases Hz; [done|]. lookup_cases Hz; eauto.
Qed.

(** A null instance ends. *)
Lemma wf_remove_null I C O a :
  wf_parts I C O → I !! a = Some null_sp → wf_parts (delete a I) C O.
Proof.
  intros [Hp Hs Hb Hc Hsm Ho] Ha. split.
  - by apply map_Forall_delete.
  - rewrite map_size_delete_Some by eauto. lia.
  - intros b x c Hx Hcx. apply lookup_delete_Some in Hx as [? Hx]. eauto.
  - intros c n Hn. destruct (Hc c n Hn) as [-> ?]. split; [|done].
    pose proof (owners_delete I a c) as E. rewrite Ha in E.
    cbn [from_option] in E. rewrite counts_null in E. lia.
  - intros b1 b2 x y Hx Hy.
    apply lookup_delete_Some in Hx as [? Hx]. apply lookup_delete_Some in Hy as [? Hy].
    eauto.
  - intros b x p Hx Hpx. apply lookup_delete_Some in Hx as [? Hx]. eauto.
Qed.

Lemma wf_counter_range I C O c n :
  wf_parts I C O → C !! c = Some n → 1 ≤ n ≤ SIZE_MAX.
Proof.
  intros [Hp Hs Hb Hc Hsm Ho] Hn. destruct (Hc c n Hn) as [-> ?].
  pose proof (owners_le_size I c). lia.
Qed.

Lemma wf_counter_room I C O a c n :
  wf_parts I C O → I !! a = Some null_sp → C !! c = Some n → n + 1 ≤ SIZE_MAX.
Proof.
  intros [Hp Hs Hb Hc Hsm Ho] Ha Hn. destruct (Hc c n Hn) as [-> ?].
  pose proof (owners_delete I a c) as E. rewrite Ha in E. cbn [from_option] in E.
  rewrite counts_null in E.
  pose proof (owners_le_size (delete a I) c) as L.
  rewrite map_size_delete_Some in L by eauto.
  assert (size I ≠ 0%nat) by (apply map_size_ne_0_lookup; eauto). lia.
Qed.

Lemma size_t_wrap_small (z : Z) : 0 ≤ z ≤ SIZE_MAX → size_t_wrap z = z.
Proof. intros H. unfold size_t_wrap, SIZE_MAX in *. apply Z.mod_small. lia. Qed.

Lemma released_insts (h h1 : heap) (y : shared_ptr) :
  released h y h1 → insts h1 = insts h.
Proof. by intros []. Qed.

(** In a well-formed heap, what release leaves is well formed once the
    instance is taken to be null. *)
Lemma released_wf (h h1 : heap) (this : positive) (y : shared_ptr) :
  well_formed h → insts h !! this = Some y → released h y h1 →
  wf_parts (<[this := null_sp]> (insts h)) (ctrl h1) (objs h1).
Proof.
  intros Hwf Hy Hrel. unfold well_formed in Hwf.
  destruct Hrel as [Hc|c n Hc Hn Hne|c p Hc Hn Hp Ho|c Hc Hn Hp].
  - rewrite insert_id; [done|]. rewrite Hy. f_equal.
    apply paired_null_iff; [|done]. by apply (wf_paired _ _ _ Hwf this).
  - cbn [with_ctrl ctrl objs].
    rewrite size_t_wrap_small by (pose proof (wf_counter_range _ _ _ c n Hwf Hn); lia).
    by eapply wf_drop_shared.
  - cbn [ctrl objs]. by eapply wf_drop_last.
  - pose proof (wf_paired _ _ _ Hwf this y Hy) as P. unfold paired in P.
    by rewrite Hp, Hc in P.
Qed.

(** Release is defined on every live instance of a well-formed heap. *)
Lemma release_defined (h : heap) (this : positive) (y : shared_ptr) :
  well_formed h → insts h !! this = Some y →
  ∃ h1, release this h = Ok tt h1 ∧ released h y h1.
Proof.
  intros Hwf Hy.
  assert (Hr : releasable h y).
  { unfold releasable. destruct (_ref_count y) as [c|] eqn:Hc; [|done].
    destruct (wf_block _ _ _ Hwf this y c Hy Hc) as [n Hn]. rewrite Hn.
    intros _. destruct (_ptr y) as [p|] eqn:Hp; [|done].
    by eapply (wf_object _ _ _ Hwf this y p). }
  destruct (release_frame h this y Hy Hr) as (h1 & Hrel & _).
  exists h1. split; [done|].
  destruct (release_inv _ _ _ _ Hrel) as (y' & Hy' & Hd). congruence.
Qed.

Lemma after_release_eq (h : heap) (this : positive) (k : M unit) (r : outcome unit) :
  (release this;; k) h = r → r ≠ UB →
  ∃ h1 y, insts h !! this = Some y ∧ release this h = Ok tt h1 ∧
          released h y h1 ∧ k h1 = r.
Proof.
  rewrite bind_unfold. destruct (release this h) as [[] h1|h1|] eqn:Hrel.
  - intros <- _. pose proof Hrel as Hrel'.
    apply release_inv in Hrel as (y & Hy & Hd). exists h1, y. eauto.
  - by apply no_throw_release in Hrel.
  - by intros <-.
Qed.

Lemma sp_eta (x : shared_ptr) : mk_shared_ptr (_ptr x) (_ref_count x) = x.
Proof. by destruct x. Qed.

(** Adoption of the pair of [other] by a null instance [this]. *)
Lemma wf_adopt I C O this other x :
  wf_parts I C O → I !! this = Some null_sp → I !! other = Some x →
  match _ref_count x with
  | Some c => ∃ n, C !! c = Some n ∧ size_t_wrap (n + 1) = n + 1 ∧
                   wf_parts (<[this := mk_shared_ptr (_ptr x) (Some c)]> I)
                     (<[c := n + 1]> C) O
  | None => wf_parts (<[this := mk_shared_ptr (_ptr x) None]> I) C O
  end.
Proof.
  intros Hwf Hthis Hx. destruct (_ref_count x) as [c|] eqn:Hc.
  - destruct (wf_block _ _ _ Hwf other x c Hx Hc) as [n Hn]. exists n.
    split; [done|]. split; [|by eapply wf_adopt_copy].
    apply size_t_wrap_small.
    pose proof (wf_counter_range _ _ _ c n Hwf Hn).
    pose proof (wf_counter_room _ _ _ this c n Hwf Hthis Hn). lia.
  - assert (x = null_sp) as ->.
    { apply paired_null_iff; [|done]. by apply (wf_paired _ _ _ Hwf other). }
    cbn. rewrite insert_id; done.
Qed.

Lemma copy_tail_wf (h1 h' : heap) (this other : positive) (y : shared_ptr) :
  this ≠ other →
  wf_parts (<[this := null_sp]> (insts h1)) (ctrl h1) (objs h1) →
  insts h1 !! this = Some y →
  (p ← read_ptr other;
   write_ptr this p;;
   c ← read_ref_count other;
   write_ref_count this c;;
   rc ← read_ref_count this;
   match rc with
   | Some c => fetch_add c 1 memory_order_relaxed;; ret tt
   | None => ret tt
   end) h1 = Ok tt h' →
  well_formed h'.
Proof.
  intros Hne Hwf Hy H.
  destruct (insts h1 !! other) as [x|] eqn:Hx; exec_in H; [|done].
  assert (Hthis : <[this:=null_sp]> (insts h1) !! this = Some null_sp)
    by apply lookup_insert_eq.
  assert (Hoth : <[this:=null_sp]> (insts h1) !! other = Some x)
    by (by rewrite lookup_insert_ne).
  pose proof (wf_adopt _ _ _ this other x Hwf Hthis Hoth) as Had.
  destruct (_ref_count x) as [c|] eqn:Hc; exec_in H.
  - destruct Had as (n & Hn & Hw & Hwf'). rewrite Hn in H. exec_in H.
    rewrite insert_insert_eq in Hwf'.
    simplify_eq. unfold well_formed. cbn [insts ctrl objs]. by rewrite Hw.
  - rewrite insert_insert_eq in Had. simplify_eq. done.
Qed.

Lemma move_tail_wf (h1 h' : heap) (this other : positive) (y : shared_ptr) :
  this ≠ other →
  wf_parts (<[this := null_sp]> (insts h1)) (ctrl h1) (objs h1) →
  insts h1 !! this = Some y →
  (p ← read_ptr other;
   write_ptr this p;;
   c ← read_ref_count other;
   write_ref_count this c;;
   write_ptr other None;;
   write_ref_count other None) h1 = Ok tt h' →
  well_formed h'.
Proof.
  intros Hne Hwf Hy H.
  destruct (insts h1 !! other) as [x|] eqn:Hx; exec_in H; [|done].
  assert (Hthis : <[this:=null_sp]> (insts h1) !! this = Some null_sp)
    by apply lookup_insert_eq.
  assert (Hoth : <[this:=null_sp]> (insts h1) !! other = Some x)
    by (by rewrite lookup_insert_ne).
  pose proof (wf_move _ _ _ this other x Hwf Hne Hthis Hoth) as Hm.
  rewrite insert_insert_eq in Hm.
  simplify_eq. unfold well_formed. cbn [insts ctrl objs]. by rewrite sp_eta.
Qed.

Lemma new_tail_wf (h1 h' : heap) (this : positive) (p na : option positive)
    (y : shared_ptr) :
  wf_parts (<[this := null_sp]> (insts h1)) (ctrl h1) (objs h1) →
  insts h1 !! this = Some y →
  (∀ q, p = Some q →
        objs h1 !! q = Some by_new ∧
        ∀ b x, <[this := null_sp]> (insts h1) !! b = Some x → _ptr x ≠ Some q) →
  (∀ c, na = Some c → ctrl h1 !! c = None) →
  (write_ptr this p;;
   c ← match p with
       | Some _ => c ← new_atomic 1 na; ret (Some c)
       | None => ret None
       end;
   write_ref_count this c) h1 = Ok tt h' →
  well_formed h'.
Proof.
  intros Hwf Hy Hp Hna H.
  assert (Hthis : <[this:=null_sp]> (insts h1) !! this = Some null_sp)
    by apply lookup_insert_eq.
  destruct p as [q|]; [destruct na as [c|]|]; exec_in H; simplify_eq.
  - destruct (Hp q eq_refl) as [Ho Hun].
    pose proof (wf_adopt_new _ _ _ this q c Hwf Hthis (Hna c eq_refl) Ho Hun) as Hn.
    by rewrite insert_insert_eq in Hn.
  - done.
Qed.

(** An operation called within its preconditions that returns normally
    keeps the ownership invariant. *)
Lemma run_well_formed (h h' : heap) (o : operation) :
  well_formed h → precondition h o → run o h = Ok tt h' → well_formed h'.
Proof.
  intros Hwf Hpre H.
  destruct o as [this|this p na|this|this other|this other|this other|this other
                |this p na]; cbn [run precondition] in *.
  - (* shared_ptr() *)
    destruct Hpre as [Hnone Hsz]. unfold ctor_default in H. exec_in H. simplify_eq.
    by apply wf_insert_null.
  - (* shared_ptr(T* p) *)
    destruct Hpre as (Hnone & Hsz & Hp & Hna).
    pose proof (wf_insert_null _ _ _ this Hwf Hnone Hsz) as Hwf0.
    assert (Hthis : <[this:=null_sp]> (insts h) !! this = Some null_sp)
      by apply lookup_insert_eq.
    unfold ctor_ptr in H.
    destruct p as [q|]; [destruct na as [c|]|]; exec_in H; simplify_eq.
    + destruct (Hp q eq_refl) as [Ho Hun].
      assert (Hun' : ∀ b x, <[this:=null_sp]> (insts h) !! b = Some x → _ptr x ≠ Some q).
      { intros b x Hx. apply lookup_insert_Some in Hx as [[<- <-]|[? Hx]]; [done|].
        by eapply Hun. }
      pose proof (wf_adopt_new _ _ _ this q c Hwf0 Hthis (Hna c eq_refl) Ho Hun') as Hn.
      by rewrite insert_insert_eq in Hn.
    + done.
  - (* ~shared_ptr() *)
    unfold dtor in H. apply after_release_eq in H as (h1 & y & Hy & _ & Hrel & H); [|done].
    pose proof (released_wf h h1 this y Hwf Hy Hrel) as Hwf1.
    exec_in H. simplify_eq. unfold well_formed. cbn [insts ctrl objs].
    rewrite (released_insts _ _ _ Hrel).
    rewrite <- (delete_insert_eq (insts h) this null_sp).
    apply wf_remove_null; [done|apply lookup_insert_eq].
  - (* copy constructor *)
    destruct Hpre as [Hnone Hsz].
    pose proof (wf_insert_null _ _ _ this Hwf Hnone Hsz) as Hwf0.
    assert (Hthis : <[this:=null_sp]> (insts h) !! this = Some null_sp)
      by apply lookup_insert_eq.
    unfold ctor_copy in H.
    destruct (insts h !! other) as [x|] eqn:Hx; exec_in H; [|done].
    assert (Hne : this ≠ other) by congruence.
    assert (Hoth : <[this:=null_sp]> (insts h) !! other = Some x)
      by (by rewrite lookup_insert_ne).
    pose proof (wf_adopt _ _ _ this other x Hwf0 Hthis Hoth) as Had.
    destruct (_ref_count x) as [c|] eqn:Hc; exec_in H.
    + destruct Had as (n & Hn & Hw & Hwf'). rewrite Hn in H. exec_in H.
      rewrite insert_insert_eq in Hwf'.
      simplify_eq. unfold well_formed. cbn [insts ctrl objs]. by rewrite Hw.
    + rewrite insert_insert_eq in Had. simplify_eq. done.
  - (* copy assignment *)
    unfold assign_copy in H.
    destruct (decide (this ≠ other)) as [Hne|]; [|exec_in H; by simplify_eq].
    apply after_release_eq in H as (h1 & y & Hy & _ & Hrel & H); [|done].
    pose proof (released_wf h h1 this y Hwf Hy Hrel) as Hwf1.
    pose proof (released_insts _ _ _ Hrel) as Hi. rewrite <- Hi in Hwf1, Hy.
    by eapply copy_tail_wf.
  - (* move constructor *)
    destruct Hpre as [Hnone Hsz].
    pose proof (wf_insert_null _ _ _ this Hwf Hnone Hsz) as Hwf0.
    assert (Hthis : <[this:=null_sp]> (insts h) !! this = Some null_sp)
      by apply lookup_insert_eq.
    unfold ctor_move in H.
    destruct (insts h !! other) as [x|] eqn:Hx; [|exec_in H; done].
    assert (Hne : this ≠ other) by congruence.
    exec_in H.
    assert (Hoth : <[this:=null_sp]> (insts h) !! other = Some x)
      by (by rewrite lookup_insert_ne).
    pose proof (wf_move _ _ _ this other x Hwf0 Hne Hthis Hoth) as Hm.
    rewrite insert_insert_eq in Hm.
    simplify_eq. unfold well_formed. cbn [insts ctrl objs]. by rewrite sp_eta.
  - (* move assignment *)
    unfold assign_move in H.
    destruct (decide (this ≠ other)) as [Hne|]; [|exec_in H; by simplify_eq].
    apply after_release_eq in H as (h1 & y & Hy & _ & Hrel & H); [|done].
    pose proof (released_wf h h1 this y Hwf Hy Hrel) as Hwf1.
    pose proof (released_insts _ _ _ Hrel) as Hi. rewrite <- Hi in Hwf1, Hy.
    by eapply move_tail_wf.
  - (* reset *)
    destruct Hpre as [Hp Hna].
    unfold reset in H. apply after_release_eq in H as (h1 & y & Hy & Hr & Hrel & H); [|done].
    pose proof (released_wf h h1 this y Hwf Hy Hrel) as Hwf1.
    pose proof (released_insts _ _ _ Hrel) as Hi. rewrite <- Hi in Hwf1.
    eapply (new_tail_wf h1 h' this p na y); [done|by rewrite Hi| |eauto|done].
    intros q ->. destruct (Hp q eq_refl) as [Ho Hun]. split.
    + rewrite (released_objs h h1 y q Hrel); [done|]. by eapply Hun.
    + intros b x Hx. apply lookup_insert_Some in Hx as [[<- <-]|[? Hx]]; [done|].
      rewrite Hi in Hx. by eapply Hun.
Qed.

(** Copy assignment between two distinct instances that hold the same
    (object, control block) pair, with a counter of at least 2. *)
Lemma copy_assign_same_pair (h : heap) (a b : loc) (x : shared_ptr)
    (c : loc) (n : Z) :
  a ≠ b → insts h !! a = Some x → insts h !! b = Some x →
  _ref_count x = Some c → ctrl h !! c = Some n → 2 ≤ n ≤ SIZE_MAX →
  ∃ h1 h',
    release a h = Ok tt h1 ∧ ctrl h1 !! c = Some (n - 1) ∧
    objs h1 = objs h ∧ trace h1 = trace h ∧
    assign_copy a b h = Ok tt h' ∧
    ctrl h' !! c = Some n ∧
    use_count a h' = Ok n h' ∧ use_count b h' = Ok n h' ∧
    get a h' = Ok (_ptr x) h' ∧ get b h' = Ok (_ptr x) h' ∧
    objs h' = objs h ∧ trace h' = trace h.
Proof.
  intros Hne Ha Hb Hc Hn Hr.
  assert (Hw1 : size_t_wrap (n - 1) = n - 1).
  { unfold size_t_wrap, SIZE_MAX in *. apply Z.mod_small. lia. }
  assert (Hw2 : size_t_wrap (n - 1 + 1) = n).
  { unfold size_t_wrap, SIZE_MAX in *. rewrite Z.mod_small; lia. }
  assert (Hrel : release a h = Ok tt (with_ctrl (insert c (n - 1)) h)).
  { rewrite <- Hw1. eapply release_shared; eauto. lia. }
  eexists _, _. split; [exact Hrel|].
  split; [cbn [ctrl with_ctrl]; by rewrite lookup_insert_eq|].
  split; [done|]. split; [done|]. split.
  { eapply (assign_copy_from h _ a b x x c (n - 1) Hne Hrel); cbn [insts ctrl with_ctrl];
      [done|done|done|by rewrite lookup_insert_eq]. }
  rewrite Hw2. cbn [with_ctrl insts ctrl objs trace].
  split; [by rewrite lookup_insert_eq|].
  split. { eapply use_count_owning; cbn [insts ctrl];
             [by rewrite lookup_insert_eq|done|by rewrite lookup_insert_eq]. }
  split. { eapply use_count_owning; cbn [insts ctrl];
             [rewrite lookup_insert_ne by done; exact Hb|done
             |by rewrite lookup_insert_eq]. }
  split. { erewrite get_live; [|cbn [insts]; by rewrite lookup_insert_eq]. done. }
  split. { erewrite get_live; [done|]. cbn [insts]. by rewrite lookup_insert_ne. }
  done.
Qed.

Lemma well_formed_initial (O : gmap positive alloc_form) :
  well_formed (mk_heap ∅ ∅ O []).
Proof.
  unfold well_formed. cbn [insts ctrl objs]. split.
  - apply map_Forall_empty.
  - rewrite map_size_empty. unfold SIZE_MAX. lia.
  - intros a x c Hx. by rewrite lookup_empty in Hx.
  - intros c n Hn. by rewrite lookup_empty in Hn.
  - intros a b x y Hx. by rewrite lookup_empty in Hx.
  - intros a x p Hx. by rewrite lookup_empty in Hx.
Qed.

(** [heap_shared] satisfies the ownership invariant: instance 1 adopts the
    raw pointer 10 with the new block 20, and instance 2 copies it. *)
Lemma well_formed_heap_shared : well_formed heap_shared.
Proof.
  pose proof (well_formed_initial {[ 10%positive := by_new ]}) as H0.
  unfold well_formed in H0. cbn [insts ctrl objs] in H0.
  apply (wf_insert_null _ _ _ 1%positive) in H0; [|done|by vm_compute].
  apply (wf_adopt_new _ _ _ 1%positive 10%positive 20%positive) in H0;
    [|done|done|done|].
  2: { intros b x Hx. apply lookup_insert_Some in Hx as [[<- <-]|[_ Hx]]; [done|].
       by rewrite lookup_empty in Hx. }
  apply (wf_insert_null _ _ _ 2%positive) in H0; [|done|by vm_compute].
  apply (wf_adopt_copy _ _ _ 2%positive
           (mk_shared_ptr (Some 10%positive) (Some 20%positive))
           1%positive 20%positive 1) in H0; [|done..].
  exact H0.
Qed.





(** An operation that deletes no object leaves the managed objects as they
    are, and adds to the log at most the allocation of its control block. *)
Lemma run_keeps (h : heap) (o : operation) (r : outcome unit) :
  keeps_objects h o → run o h = r →
  match r with
  | Ok _ h' | Throw h' =>
      objs h' = objs h ∧
      (trace h' = trace h ∨
       ∃ c, allocation o = Some c ∧ trace h' = trace h ++ [EvNewCtrl c])
  | UB => True
  end.
Proof.
  intros Hk H.
  destruct o as [this|this p na|this|this other|this other|this other|this other
                |this p na]; cbn [run keeps_objects allocation] in *.
  - subst r. unfold ctor_default. exec. auto.
  - subst r. unfold ctor_ptr.
    destruct p as [q|], na as [c|]; exec; eauto.
  - destruct r as [u h'|h'|]; [| |done].
    all: unfold dtor in H;
      apply after_release_eq in H as (h1 & y & Hy & _ & Hrel & H); [|done].
    all: destruct (released_keeps _ _ _ Hrel (Hk y Hy)) as [Ho Ht].
    all: exec_in H; simplify_eq. cbn [objs trace]. auto.
  - destruct r as [u h'|h'|]; [| |done].
    all: unfold ctor_copy in H.
    all: destruct (insts h !! other) as [x|] eqn:Hx; exec_in H; [|done].
    all: destruct (_ref_count x) as [c|] eqn:Hc; exec_in H;
      [destruct (ctrl h !! c) as [n|] eqn:Hn; exec_in H|]; simplify_eq.
    all: cbn [objs trace]; auto.
  - unfold assign_copy in H.
    destruct (decide (this ≠ other)) as [Hne|];
      [|exec_in H; subst r; auto].
    destruct r as [u h'|h'|]; [| |done].
    all: apply after_release_eq in H as (h1 & y & Hy & _ & Hrel & H); [|done].
    all: destruct (released_keeps _ _ _ Hrel (Hk Hne y Hy)) as [Ho Ht].
    all: pose proof (released_insts _ _ _ Hrel) as Hi.
    all: assert (Hy1 : insts h1 !! this = Some y) by (by rewrite Hi).
    all: destruct (insts h1 !! other) as [x|] eqn:Hx; exec_in H; [|done].
    all: destruct (_ref_count x) as [c|] eqn:Hc; exec_in H;
      [destruct (ctrl h1 !! c) as [n|] eqn:Hn; exec_in H|]; simplify_eq.
    all: cbn [objs trace]; auto.
  - destruct r as [u h'|h'|]; [| |done].
    all: unfold ctor_move in H.
    all: destruct (insts h !! other) as [x|] eqn:Hx; exec_in H; [|done].
    all: destruct (decide (this = other)) as [->|Hne]; exec_in H; simplify_eq.
    all: cbn [objs trace]; auto.
  - unfold assign_move in H.
    destruct (decide (this ≠ other)) as [Hne|];
      [|exec_in H; subst r; auto].
    destruct r as [u h'|h'|]; [| |done].
    all: apply after_release_eq in H as (h1 & y & Hy & _ & Hrel & H); [|done].
    all: destruct (released_keeps _ _ _ Hrel (Hk Hne y Hy)) as [Ho Ht].
    all: pose proof (released_insts _ _ _ Hrel) as Hi.
    all: assert (Hy1 : insts h1 !! this = Some y) by (by rewrite Hi).
    all: destruct (insts h1 !! other) as [x|] eqn:Hx; exec_in H; [|done].
    all: simplify_eq. cbn [objs trace]. auto.
  - destruct r as [u h'|h'|]; [| |done].
    all: unfold reset in H;
      apply after_release_eq in H as (h1 & y & Hy & _ & Hrel & H); [|done].
    all: destruct (released_keeps _ _ _ Hrel (Hk y Hy)) as [Ho Ht].
    all: pose proof (released_insts _ _ _ Hrel) as Hi.
    all: assert (Hy1 : insts h1 !! this = Some y) by (by rewrite Hi).
    all: destruct p as [q|], na as [c|]; exec_in H; simplify_eq; cbn [objs trace].
    all: try (split; [done|]); rewrite ?Ht; eauto.
Qed.

(** X2: in a heap that satisfies the ownership invariant, a public operation
    that is called within its precondition on live instances and deletes no
    managed object (a constructor; or the destructor, an assignment or
    [reset] called on an instance that is null or not the last owner of its
    object) has defined behaviour: it returns normally or leaves by an
    exception, and every managed object is as before. *)
Theorem operations_defined (h : heap) (o : operation) :
  well_formed h → precondition h o → operands_live h o → keeps_objects h o →
  run o h ≠ UB ∧
  ∃ h', (run o h = Ok tt h' ∨ run o h = Throw h') ∧ objs h' = objs h.
Proof.
  intros Hwf _ Hlive Hk.
  assert (Hdef : run o h ≠ UB).
  { destruct o as [this|this p na|this|this other|this other|this other|this other
                  |this p na]; cbn [run operands_live] in *.
    - done.
    - unfold ctor_ptr. destruct p as [q|]; [destruct na as [c|]|]; by exec.
    - destruct Hlive as [y Hy].
      destruct (release_defined h this y Hwf Hy) as (h1 & Hrel & _).
      unfold dtor. rewrite bind_unfold, Hrel. by exec.
    - destruct Hlive as [x Hx]. unfold ctor_copy. exec.
      destruct (_ref_count x) as [c|] eqn:Hc; exec; [|done].
      destruct (wf_block _ _ _ Hwf other x c Hx Hc) as [n Hn]. by exec.
    - destruct Hlive as [[y Hy] [x Hx]]. unfold assign_copy.
      destruct (decide (this ≠ other)) as [Hne|]; [|by exec].
      destruct (release_defined h this y Hwf Hy) as (h1 & Hrel & Hd).
      pose proof (released_wf h h1 this y Hwf Hy Hd) as Hwf1.
      pose proof (released_insts _ _ _ Hd) as Hi.
      rewrite bind_unfold, Hrel. rewrite <- Hi in Hx, Hy. exec.
      destruct (_ref_count x) as [c|] eqn:Hc; exec; [|done].
      assert (Hoth : <[this:=null_sp]> (insts h) !! other = Some x)
        by (rewrite lookup_insert_ne by done; by rewrite <- Hi).
      destruct (wf_block _ _ _ Hwf1 other x c Hoth Hc) as [n Hn]. by exec.
    - destruct Hlive as [x Hx]. unfold ctor_move. exec.
      destruct (decide (this = other)) as [->|Hne]; by exec.
    - destruct Hlive as [[y Hy] [x Hx]]. unfold assign_move.
      destruct (decide (this ≠ other)) as [Hne|]; [|by exec].
      destruct (release_defined h this y Hwf Hy) as (h1 & Hrel & Hd).
      pose proof (released_insts _ _ _ Hd) as Hi.
      rewrite bind_unfold, Hrel. rewrite <- Hi in Hx, Hy. by exec.
    - destruct Hlive as [y Hy].
      destruct (release_defined h this y Hwf Hy) as (h1 & Hrel & Hd).
      pose proof (released_insts _ _ _ Hd) as Hi.
      unfold reset. rewrite bind_unfold, Hrel. rewrite <- Hi in Hy.
      destruct p as [q|]; [destruct na as [c|]|]; by exec. }
  split; [done|].
  pose proof (run_keeps h o _ Hk eq_refl) as Hkeep.
  destruct (run o h) as [[] h'|h'|]; [| |done].
  - exists h'. split; [by left|]. apply Hkeep.
  - exists h'. split; [by right|]. apply Hkeep.
Qed.

(** Instance 1 of [heap_shared] shares its object with instance 2 and is
    assigned from it. *)
Lemma operations_defined_witness :
  ∃ r, run (OpCopyAssign 1%positive 2%positive) heap_shared = r ∧ r ≠ UB ∧
       ∃ h', (r = Ok tt h' ∨ r = Throw h') ∧ objs h' = objs heap_shared.
Proof.
  eexists. split; [reflexivity|].
  refine (operations_defined heap_shared (OpCopyAssign 1%positive 2%positive)
            well_formed_heap_shared I _ _).
  - split; eexists; reflexivity.
  - intros _ x Hx. vm_compute in Hx. injection Hx as <-.
    exists 2. split; [reflexivity|discriminate].
Defined.

(** C10: in a well-formed heap, two distinct instances [a] and [b] that
    reference the same control block have a counter [n ≥ 2], and the copy
    assignment [a = b] returns normally with the counter again at [n] and
    with [a.get()] and [b.get()] as before; its release only takes the
    counter to [n - 1 ≥ 1], so nothing is destroyed or freed. *)
Theorem copy_assign_same_block (h : heap) (a b : loc) (x y : shared_ptr)
    (c : loc) :
  well_formed h → a ≠ b → insts h !! a = Some x → insts h !! b = Some y →
  _ref_count x = Some c → _ref_count y = Some c →
  ∃ n h1 h',
    ctrl h !! c = Some n ∧ 2 ≤ n ∧
    release a h = Ok tt h1 ∧ ctrl h1 !! c = Some (n - 1) ∧
    objs h1 = objs h ∧ trace h1 = trace h ∧
    assign_copy a b h = Ok tt h' ∧
    ctrl h' !! c = Some n ∧
    use_count a h' = Ok n h' ∧ use_count b h' = Ok n h' ∧
    get a h = Ok (_ptr x) h ∧ get a h' = Ok (_ptr x) h' ∧
    get b h = Ok (_ptr y) h ∧ get b h' = Ok (_ptr y) h' ∧
    objs h' = objs h ∧ trace h' = trace h.
Proof.
  intros Hwf Hne Ha Hb Hcx Hcy.
  destruct (wf_block _ _ _ Hwf a x c Ha Hcx) as [n Hn].
  destruct (wf_count _ _ _ Hwf c n Hn) as [Hown _].
  pose proof (owners_two _ a b c x y Hne Ha Hb Hcx Hcy) as H2.
  pose proof (wf_counter_range _ _ _ c n Hwf Hn) as Hrange.
  assert (Hxy : y = x).
  { pose proof (proj1 (wf_same _ _ _ Hwf a b x y Ha Hb)) as Hp.
    destruct x as [px cx], y as [py cy]. cbn in *. subst cx cy.
    by rewrite (Hp eq_refl). }
  subst y.
  destruct (copy_assign_same_pair h a b x c n Hne Ha Hb Hcx Hn ltac:(lia))
    as (h1 & h' & Hrel & H1 & Ho1 & Ht1 & Has & Hc' & Hua & Hub & Hga & Hgb & Ho & Ht).
  exists n, h1, h'. repeat split; try done; try lia; by apply get_live.
Qed.

Lemma copy_assign_same_block_witness :
  ∃ n h1 h',
    ctrl heap_shared !! 20%positive = Some n ∧ 2 ≤ n ∧
    release 1%positive heap_shared = Ok tt h1 ∧
    ctrl h1 !! 20%positive = Some (n - 1) ∧
    objs h1 = objs heap_shared ∧ trace h1 = trace heap_shared ∧
    assign_copy 1%positive 2%positive heap_shared = Ok tt h' ∧
    ctrl h' !! 20%positive = Some n ∧
    use_count 1%positive h' = Ok n h' ∧ use_count 2%positive h' = Ok n h' ∧
    get 1%positive heap_shared = Ok (Some 10%positive) heap_shared ∧
    get 1%positive h' = Ok (Some 10%positive) h' ∧
    get 2%positive heap_shared = Ok (Some 10%positive) heap_shared ∧
    get 2%positive h' = Ok (Some 10%positive) h' ∧
    objs h' = objs heap_shared ∧ trace h' = trace heap_shared.
Proof.
  refine (copy_assign_same_block heap_shared 1%positive 2%positive
            (mk_shared_ptr (Some 10%positive) (Some 20%positive))
            (mk_shared_ptr (Some 10%positive) (Some 20%positive)) 20%positive
            well_formed_heap_shared _ eq_refl eq_refl eq_refl eq_refl).
  discriminate.
Defined.

(** ** Move *)




(** ** Array element forms: the theorem *)

Lemma not_own_element (U : Instantiation.cxx_type) :
  U ≠ Instantiation.ArrayUnknownBound U.
Proof. induction U as [n|e IH|u IH]; congruence. Qed.

(** C4 does not hold of the code.  At an array element form [T = U[]] the
    call of [std::default_delete] in [release] does not type-check, and the
    constructor does not accept the result of [new U[n]]; at an object type
    both do.  An instance of [shared_ptr<U>] that was given the result of
    [new U[n]] applies scalar [delete] to it on the last release, which is
    undefined and not an element-wise destruction. *)
Theorem array_form_not_supported :
  (∀ U, Instantiation.release_well_formed (Instantiation.ArrayUnknownBound U) = false) ∧
  (∀ U, Instantiation.ctor_accepts (Instantiation.ArrayUnknownBound U)
          (Instantiation.new_expression_type U) = false) ∧
  (∀ name, Instantiation.release_well_formed (Instantiation.Object name) = true ∧
           Instantiation.ctor_accepts (Instantiation.Object name)
             (Instantiation.new_expression_type (Instantiation.Object name)) = true) ∧
  release 1%positive heap_array = UB ∧
  dtor 1%positive heap_array = UB.
Proof.
  split; [|split; [|split; [|split]]].
  - intros U. unfold Instantiation.release_well_formed,
      Instantiation.default_delete_callable, Instantiation.member_ptr_type.
    cbn. by rewrite andb_false_r.
  - intros U. unfold Instantiation.ctor_accepts, Instantiation.new_expression_type,
      Instantiation.member_ptr_type.
    apply bool_decide_eq_false. intros [= HU].
    by apply not_own_element in HU.
  - intros name. split.
    + unfold Instantiation.release_well_formed, Instantiation.default_delete_callable.
      by apply bool_decide_eq_true.
    + by apply bool_decide_eq_true.
  - reflexivity.
  - reflexivity.
Qed.

(** ** Construction and destruction *)

Lemma heap_eta (h : heap) : mk_heap (insts h) (ctrl h) (objs h) (trace h) = h.
Proof. by destruct h. Qed.

(** X3: the default constructor and construction from a null pointer give a
    null instance ([use_count() == 0], [get() == nullptr]) and allocate
    nothing, whatever the allocator would do; construction from a non-null
    pointer [p], when the allocation succeeds, gives [use_count() == 1] and
    [get() == p], changes no other control block and destroys nothing. *)
Theorem construction_state (h : heap) (this : positive) :
  (∃ h', ctor_default this h = Ok tt h' ∧
         use_count this h' = Ok 0 h' ∧ get this h' = Ok None h' ∧
         ctrl h' = ctrl h ∧ objs h' = objs h ∧ trace h' = trace h) ∧
  (∀ na, ∃ h', ctor_ptr this None na h = Ok tt h' ∧
         use_count this h' = Ok 0 h' ∧ get this h' = Ok None h' ∧
         ctrl h' = ctrl h ∧ objs h' = objs h ∧ trace h' = trace h) ∧
  (∀ p c, ∃ h', ctor_ptr this (Some p) (Some c) h = Ok tt h' ∧
         use_count this h' = Ok 1 h' ∧ get this h' = Ok (Some p) h' ∧
         (∀ c', c' ≠ c → ctrl h' !! c' = ctrl h !! c') ∧
         objs h' = objs h ∧ trace h' = trace h ++ [EvNewCtrl c]).
Proof.
  split; [|split].
  - eexists. split; [reflexivity|]. repeat split; by exec.
  - intros na. eexists. split; [reflexivity|]. repeat split; by exec.
  - intros p c. eexists. split; [reflexivity|].
    split; [by exec|]. split; [by exec|]. split; [|done].
    intros c' Hc'. cbn. by rewrite lookup_insert_ne.
Qed.



Lemma ctor_copy_null (h : heap) (a b : positive) (x : shared_ptr) :
  insts h !! a = Some x → _ref_count x = None →
  ctor_copy b a h = Ok tt (with_insts (insert b (mk_shared_ptr (_ptr x) None)) h).
Proof. intros Hx Hc. unfold ctor_copy. by exec. Qed.

Lemma dtor_shared (h : heap) (this : positive) (x : shared_ptr) (c : positive) (n : Z) :
  insts h !! this = Some x → _ref_count x = Some c → ctrl h !! c = Some n →
  n ≠ 1 →
  dtor this h =
    Ok tt (mk_heap (delete this (insts h)) (<[c := size_t_wrap (n - 1)]> (ctrl h))
             (objs h) (trace h)).
Proof.
  intros Hx Hc Hn Hne. unfold dtor. rewrite bind_unfold.
  rewrite (release_shared h this x c n) by done. by exec.
Qed.

(** X5: inside [k] nested scopes that each hold a copy of the owning
    instance [a], [a.use_count()] is the count before plus [k]; when the
    scopes have ended the heap is exactly as before: same counter, nothing
    destroyed. *)
Theorem copy_scopes_restore (bs : list positive) :
  ∀ (h : heap) (a : positive) (x : shared_ptr) (c : positive) (n : Z),
    NoDup bs → (∀ b, b ∈ bs → insts h !! b = None) →
    insts h !! a = Some x → _ref_count x = Some c → ctrl h !! c = Some n →
    1 ≤ n → n + Z.of_nat (length bs) ≤ SIZE_MAX →
    in_copy_scopes bs a (use_count a) h = Ok (n + Z.of_nat (length bs)) h.
Proof.
  induction bs as [|b bs IH]; intros h a x c n Hnd Hfresh Ha Hc Hn H1 Hmax.
  - cbn [in_copy_scopes length]. rewrite Z.add_0_r. by eapply use_count_owning.
  - apply NoDup_cons in Hnd as [Hb Hnd].
    assert (Hab : b ≠ a).
    { intros ->. rewrite Hfresh in Ha by set_solver. done. }
    cbn [in_copy_scopes length] in *.
    rewrite bind_unfold, (ctor_copy_owning h a b x c n) by done.
    rewrite size_t_wrap_small by (unfold SIZE_MAX in *; lia).
    rewrite bind_unfold.
    erewrite (IH _ a x c (n + 1)); try done; cbn [insts ctrl]; try lia.
    + rewrite bind_unfold. erewrite dtor_shared; cycle 1.
      { cbn [insts]. apply lookup_insert_eq. }
      { done. }
      { cbn [ctrl]. apply lookup_insert_eq. }
      { lia. }
      cbn [insts ctrl objs trace].
      rewrite delete_insert_id by (apply Hfresh; set_solver).
      rewrite insert_insert_eq.
      replace (n + 1 - 1) with n by lia.
      rewrite size_t_wrap_small by (unfold SIZE_MAX in *; lia).
      rewrite insert_id by done. rewrite heap_eta, ret_unfold.
      f_equal. lia.
    + intros b' Hb'. rewrite lookup_insert_ne by set_solver.
      apply Hfresh. set_solver.
    + by rewrite lookup_insert_ne.
    + by rewrite lookup_insert_eq.
Qed.

Lemma copy_scopes_restore_witness :
  in_copy_scopes [3%positive; 4%positive] 1%positive (use_count 1%positive)
    heap_sole = Ok (1 + Z.of_nat (length [3%positive; 4%positive])) heap_sole.
Proof.
  apply (copy_scopes_restore [3%positive; 4%positive] heap_sole 1%positive
           (mk_shared_ptr (Some 10%positive) (Some 20%positive)) 20%positive 1).
  - apply NoDup_cons. split; [|apply NoDup_singleton].
    intros Hin. apply list_elem_of_singleton in Hin. discriminate.
  - intros b Hb. apply elem_of_cons in Hb as [->|Hb]; [reflexivity|].
    apply list_elem_of_singleton in Hb as ->. reflexivity.
  - reflexivity.
  - reflexivity.
  - reflexivity.
  - lia.
  - by vm_compute.
Defined.

(** X6: between distinct instances, copy assignment is the destructor of
    the destination followed by copy construction in its place, and move
    assignment is the destructor followed by move construction: the same
    outcome and the same heap, in every case. *)
Theorem assignment_is_destroy_then_construct (h : heap) (this other : positive) :
  this ≠ other →
  assign_copy this other h = (dtor this;; ctor_copy this other) h ∧
  assign_move this other h = (dtor this;; ctor_move this other) h.
Proof.
  intros Hne. unfold assign_copy, assign_move, dtor.
  destruct (decide (this ≠ other)) as [_|]; [|done].
  rewrite !(bind_unfold (release this)), !(bind_unfold (release this ≫= _)).
  rewrite !(bind_unfold (release this)).
  destruct (release this h) as [u h1| |] eqn:Hrel; [|done..].
  assert (Hy : ∃ y, insts h1 !! this = Some y).
  { apply release_insts in Hrel as [-> [x Hx]]. eauto. }
  destruct Hy as [y Hy]. unfold ctor_copy, ctor_move.
  assert (Hd : delete this (insts h1) !! other = insts h1 !! other)
    by (by rewrite lookup_delete_ne).
  destruct (insts h1 !! other) as [x|] eqn:Hx.
  - split.
    + exec. rewrite insert_delete_eq.
      destruct (_ref_count x) as [c|] eqn:Hc; [|done].
      destruct (ctrl h1 !! c) as [n|] eqn:Hn; by exec.
    + exec. by rewrite insert_delete_eq.
  - split; by exec.
Qed.

Lemma assignment_is_destroy_then_construct_witness :
  assign_copy 2%positive 1%positive heap_two =
    (dtor 2%positive;; ctor_copy 2%positive 1%positive) heap_two ∧
  assign_move 2%positive 1%positive heap_two =
    (dtor 2%positive;; ctor_move 2%positive 1%positive) heap_two.
Proof.
  apply (assignment_is_destroy_then_construct heap_two 2%positive 1%positive).
  discriminate.
Defined.

(** X11: move construction of [b] from [a] followed by the destruction of
    the moved-from [a] only relocates the instance: [b] holds what [a] held,
    [a] is gone, and counters, objects and log are untouched. *)
Theorem move_then_destroy_source (h : heap) (a b : positive) (x : shared_ptr) :
  a ≠ b → insts h !! a = Some x →
  (ctor_move b a;; dtor a) h =
    Ok tt (with_insts (λ m, delete a (<[b := x]> m)) h).
Proof.
  intros Hne Ha. rewrite bind_unfold.
  rewrite (ctor_move_live h b a x) by done.
  unfold dtor. rewrite bind_unfold.
  erewrite release_null; cycle 1.
  { cbn. apply lookup_insert_eq. }
  { done. }
  exec. by rewrite delete_insert_eq.
Qed.

Lemma move_then_destroy_source_witness :
  (ctor_move 2%positive 1%positive;; dtor 1%positive) heap_sole =
    Ok tt (with_insts
             (λ m, delete 1%positive
                     (<[2%positive :=
                          mk_shared_ptr (Some 10%positive) (Some 20%positive)]> m))
             heap_sole).
Proof.
  apply (move_then_destroy_source heap_sole 1%positive 2%positive).
  - discriminate.
  - reflexivity.
Defined.

(** ** Exceptions *)

Lemma no_throw_fetch_add c k mo : no_throw (fetch_add c k mo).
Proof. intros h h'. unfold fetch_add. by destruct (ctrl h !! c). Qed.

Lemma no_throw_end_lifetime a : no_throw (end_lifetime a).
Proof. by intros h h'. Qed.

Lemma no_throw_dtor this : no_throw (dtor this).
Proof.
  unfold dtor. apply no_throw_bind; [apply no_throw_release|intros _].
  apply no_throw_end_lifetime.
Qed.

Lemma no_throw_increment (rc : option positive) :
  no_throw (match rc with
            | Some c => fetch_add c 1 memory_order_relaxed;; ret tt
            | None => ret tt
            end).
Proof.
  destruct rc as [c|]; [|apply no_throw_ret].
  apply no_throw_bind; [apply no_throw_fetch_add|intros _; apply no_throw_ret].
Qed.

Lemma no_throw_ctor_copy this other : no_throw (ctor_copy this other).
Proof.
  unfold ctor_copy.
  repeat (apply no_throw_bind; [auto with no_throw_db|intros ?]).
  apply no_throw_increment.
Qed.

Lemma no_throw_assign_copy this other : no_throw (assign_copy this other).
Proof.
  unfold assign_copy. destruct (decide (this ≠ other)); [|auto with no_throw_db].
  apply no_throw_bind; [apply no_throw_release|intros ?].
  repeat (apply no_throw_bind; [auto with no_throw_db|intros ?]).
  apply no_throw_increment.
Qed.

Lemma no_throw_reset_null this na : no_throw (reset this None na).
Proof.
  unfold reset. apply no_throw_bind; [apply no_throw_release|intros ?].
  repeat (apply no_throw_bind; [auto with no_throw_db|intros ?]);
    auto with no_throw_db.
Qed.

Lemma no_throw_reset_allocated this p c : no_throw (reset this p (Some c)).
Proof.
  unfold reset. apply no_throw_bind; [apply no_throw_release|intros ?].
  apply no_throw_bind; [auto with no_throw_db|intros ?].
  apply no_throw_bind; [|intros ?; auto with no_throw_db].
  destruct p as [q|]; [|auto with no_throw_db].
  apply no_throw_bind; [|intros ?; auto with no_throw_db].
  by intros h h'.
Qed.

(** X7: an exception leaves a public operation only from construction from
    a non-null raw pointer, with the heap unchanged, or from [reset] with a
    non-null pointer, and only when the allocation of the control block
    fails; the default constructor, the destructor, copies and moves never
    throw. *)
Theorem only_failed_allocation_throws (h h' : heap) (o : operation) :
  run o h = Throw h' →
  ∃ this q, (o = OpFromPointer this (Some q) None ∧ h' = h) ∨
            o = OpReset this (Some q) None.
Proof.
  intros H.
  destruct o as [this|this p na|this|this other|this other|this other|this other
                |this p na]; cbn [run] in H.
  - done.
  - destruct p as [q|], na as [c|]; try done.
    injection H as <-. eauto.
  - by apply no_throw_dtor in H.
  - by apply no_throw_ctor_copy in H.
  - by apply no_throw_assign_copy in H.
  - by apply no_throw_ctor_move in H.
  - by apply no_throw_assign_move in H.
  - destruct na as [c|]; [by apply no_throw_reset_allocated in H|].
    destruct p as [q|]; [eauto|by apply no_throw_reset_null in H].
Qed.

Lemma only_failed_allocation_throws_witness :
  ∃ this q,
    (OpFromPointer 2%positive (Some 10%positive) None =
       OpFromPointer this (Some q) None ∧ heap_null = heap_null) ∨
    OpFromPointer 2%positive (Some 10%positive) None = OpReset this (Some q) None.
Proof.
  apply (only_failed_allocation_throws heap_null heap_null
           (OpFromPointer 2%positive (Some 10%positive) None)).
  reflexivity.
Defined.

(** ** Observers *)

(** X8: in a heap that satisfies the ownership invariant, [use_count()]
    returns the number of live instances that reference the instance's
    control block, leaves the heap as it is, and is 0 exactly for a null
    instance. *)
Theorem use_count_is_owner_count (h : heap) (a : positive) (x : shared_ptr) :
  well_formed h → insts h !! a = Some x →
  ∃ n, use_count a h = Ok n h ∧
       n = match _ref_count x with
           | Some c => Z.of_nat (owners (insts h) c)
           | None => 0
           end ∧
       (n = 0 ↔ _ref_count x = None).
Proof.
  intros Hwf Ha. destruct (_ref_count x) as [c|] eqn:Hc.
  - destruct (wf_block _ _ _ Hwf a x c Ha Hc) as [n Hn].
    destruct (wf_count _ _ _ Hwf c n Hn) as [Hown Hpos].
    exists n. split; [by eapply use_count_owning|]. split; [done|].
    split; [lia|done].
  - exists 0. split; [by eapply use_count_null|]. done.
Qed.

Lemma use_count_is_owner_count_witness :
  ∃ n, use_count 1%positive heap_shared = Ok n heap_shared ∧
       n = Z.of_nat (owners (insts heap_shared) 20%positive) ∧
       (n = 0 ↔ Some 20%positive = None).
Proof.
  exact (use_count_is_owner_count heap_shared 1%positive
           (mk_shared_ptr (Some 10%positive) (Some 20%positive))
           well_formed_heap_shared eq_refl).
Defined.

(** X9: [get()] and [operator->] return [_ptr] and leave the heap as it is;
    under the ownership invariant [operator*] on an owning instance returns
    its object, which is alive; on a null instance [operator*] is undefined
    behaviour while [get()] and [operator->] return the null pointer. *)
Theorem dereference_while_owned (h : heap) (a : positive) (x : shared_ptr) :
  insts h !! a = Some x →
  match _ptr x with
  | Some p =>
      arrow a h = Ok (Some p) h ∧ get a h = Ok (Some p) h ∧
      (well_formed h → deref a h = Ok p h)
  | None =>
      arrow a h = Ok None h ∧ get a h = Ok None h ∧ deref a h = UB
  end.
Proof.
  intros Ha. destruct (_ptr x) as [p|] eqn:Hp.
  - split; [|split].
    + unfold arrow. by exec.
    + by exec.
    + intros Hwf. pose proof (wf_object _ _ _ Hwf a x p Ha Hp) as Ho.
      unfold deref, object_at. by exec.
  - split; [|split].
    + unfold arrow. by exec.
    + by exec.
    + unfold deref, undefined. by exec.
Qed.

Lemma dereference_while_owned_witness :
  arrow 1%positive heap_shared = Ok (Some 10%positive) heap_shared ∧
  get 1%positive heap_shared = Ok (Some 10%positive) heap_shared ∧
  (well_formed heap_shared →
   deref 1%positive heap_shared = Ok 10%positive heap_shared).
Proof.
  exact (dereference_while_owned heap_shared 1%positive
           (mk_shared_ptr (Some 10%positive) (Some 20%positive)) eq_refl).
Defined.

(** X10: under the ownership invariant, destroying an instance that shares
    its control block with another live instance [b] destroys nothing: the
    counter goes from [n] to [n - 1 ≥ 1], [b.use_count()] reads [n - 1],
    [*b] is still defined, and the invariant holds of the heap left. *)
Theorem destroy_keeps_shared_object (h : heap) (a b : positive) (x y : shared_ptr)
    (c : positive) :
  well_formed h → a ≠ b → insts h !! a = Some x → insts h !! b = Some y →
  _ref_count x = Some c → _ref_count y = Some c →
  ∃ n p h',
    ctrl h !! c = Some n ∧ _ptr y = Some p ∧
    dtor a h = Ok tt h' ∧
    insts h' !! a = None ∧
    use_count b h' = Ok (n - 1) h' ∧ 1 ≤ n - 1 ∧
    deref b h' = Ok p h' ∧
    objs h' = objs h ∧ trace h' = trace h ∧
    well_formed h'.
Proof.
  intros Hwf Hne Ha Hb Hcx Hcy.
  destruct (wf_block _ _ _ Hwf a x c Ha Hcx) as [n Hn].
  destruct (wf_count _ _ _ Hwf c n Hn) as [Hown _].
  pose proof (owners_two _ a b c x y Hne Ha Hb Hcx Hcy) as H2.
  pose proof (wf_counter_range _ _ _ c n Hwf Hn) as Hrange.
  assert (Hp : ∃ p, _ptr y = Some p).
  { pose proof (wf_paired _ _ _ Hwf b y Hb) as P. unfold paired in P.
    rewrite Hcy in P. destruct (_ptr y); [eauto|done]. }
  destruct Hp as [p Hp].
  assert (Hd : dtor a h =
               Ok tt (mk_heap (delete a (insts h)) (<[c := n - 1]> (ctrl h))
                        (objs h) (trace h))).
  { rewrite (dtor_shared h a x c n) by (done || lia).
    by rewrite size_t_wrap_small by lia. }
  exists n, p. eexists. split; [done|]. split; [done|]. split; [exact Hd|].
  cbn [insts ctrl objs trace].
  split; [apply lookup_delete_eq|].
  split.
  { eapply use_count_owning; cbn [insts ctrl];
      [by rewrite lookup_delete_ne|done|by rewrite lookup_insert_eq]. }
  split; [lia|].
  split.
  { pose proof (wf_object _ _ _ Hwf b y p Hb Hp) as Ho.
    assert (Hb' : delete a (insts h) !! b = Some y) by (by rewrite lookup_delete_ne).
    unfold deref, object_at. by exec. }
  split; [done|]. split; [done|].
  by apply (run_well_formed h _ (OpDestroy a)).
Qed.

Lemma destroy_keeps_shared_object_witness :
  ∃ n p h',
    ctrl heap_shared !! 20%positive = Some n ∧ Some 10%positive = Some p ∧
    dtor 1%positive heap_shared = Ok tt h' ∧
    insts h' !! 1%positive = None ∧
    use_count 2%positive h' = Ok (n - 1) h' ∧ 1 ≤ n - 1 ∧
    deref 2%positive h' = Ok p h' ∧
    objs h' = objs heap_shared ∧ trace h' = trace heap_shared ∧
    well_formed h'.
Proof.
  refine (destroy_keeps_shared_object heap_shared 1%positive 2%positive
            (mk_shared_ptr (Some 10%positive) (Some 20%positive))
            (mk_shared_ptr (Some 10%positive) (Some 20%positive)) 20%positive
            well_formed_heap_shared _ eq_refl eq_refl eq_refl eq_refl).
  discriminate.
Defined.

(** ** What an operation leaves alone *)

Ltac frame_goal :=
  cbn [insts];
  repeat first [rewrite lookup_insert_ne by done | rewrite lookup_delete_ne by done];
  try done; try congruence.

Lemma run_frame (h : heap) (o : operation) (d : positive) (r : outcome unit) :
  d ∉ written o → run o h = r →
  match r with
  | Ok _ h' | Throw h' => insts h' !! d = insts h !! d
  | UB => True
  end.
Proof.
  intros Hd H.
  destruct o as [this|this p na|this|this other|this other|this other|this other
                |this p na]; cbn [run written] in *.
  - assert (this ≠ d) by set_solver. subst r. unfold ctor_default. exec. frame_goal.
  - assert (this ≠ d) by set_solver. subst r. unfold ctor_ptr.
    destruct p as [q|], na as [c|]; exec; frame_goal.
  - assert (this ≠ d) by set_solver.
    destruct r as [u h'|h'|]; [| |done].
    all: unfold dtor in H; apply after_release in H as (h1 & y & Hi & Hy & H); [|done].
    all: exec_in H; simplify_eq. frame_goal.
  - assert (this ≠ d) by set_solver.
    destruct r as [u h'|h'|]; [| |done].
    all: unfold ctor_copy in H.
    all: destruct (insts h !! other) as [x|] eqn:Hx; exec_in H; [|done].
    all: destruct (_ref_count x) as [c|] eqn:Hc; exec_in H;
      [destruct (ctrl h !! c) as [n|] eqn:Hn; exec_in H|]; simplify_eq.
    all: frame_goal.
  - assert (this ≠ d) by set_solver. unfold assign_copy in H.
    destruct (decide (this ≠ other)) as [Hne|]; [|exec_in H; by subst r].
    destruct r as [u h'|h'|]; [| |done].
    all: apply after_release in H as (h1 & y & Hi & Hy & H); [|done].
    all: assert (Hy1 : insts h1 !! this = Some y) by (by rewrite Hi).
    all: destruct (insts h1 !! other) as [x|] eqn:Hx; exec_in H; [|done].
    all: destruct (_ref_count x) as [c|] eqn:Hc; exec_in H;
      [destruct (ctrl h1 !! c) as [n|] eqn:Hn; exec_in H|]; simplify_eq.
    all: frame_goal.
  - assert (this ≠ d ∧ other ≠ d) as [? ?] by set_solver.
    destruct r as [u h'|h'|]; [| |done].
    all: unfold ctor_move in H.
    all: destruct (insts h !! other) as [x|] eqn:Hx; exec_in H; [|done].
    all: destruct (decide (this = other)) as [->|Hne]; exec_in H; simplify_eq.
    all: frame_goal.
  - assert (this ≠ d ∧ other ≠ d) as [? ?] by set_solver. unfold assign_move in H.
    destruct (decide (this ≠ other)) as [Hne|]; [|exec_in H; by subst r].
    destruct r as [u h'|h'|]; [| |done].
    all: apply after_release in H as (h1 & y & Hi & Hy & H); [|done].
    all: assert (Hy1 : insts h1 !! this = Some y) by (by rewrite Hi).
    all: destruct (insts h1 !! other) as [x|] eqn:Hx; exec_in H; [|done].
    all: simplify_eq. all: frame_goal.
  - assert (this ≠ d) by set_solver.
    destruct r as [u h'|h'|]; [| |done].
    all: unfold reset in H; apply after_release in H as (h1 & y & Hi & Hy & H); [|done].
    all: assert (Hy1 : insts h1 !! this = Some y) by (by rewrite Hi).
    all: destruct p as [q|], na as [c|]; exec_in H; simplify_eq.
    all: frame_goal.
Qed.

Lemma released_ctrl (h h1 : heap) (x : shared_ptr) (c : positive) :
  released h x h1 → _ref_count x ≠ Some c → ctrl h1 !! c = ctrl h !! c.
Proof.
  intros Hrel Hc.
  destruct Hrel as [|c' n Hc' _ _|c' p Hc' _ _ _|c' Hc' _ _];
    cbn [ctrl with_ctrl]; try done.
  - rewrite lookup_insert_ne; [done|congruence].
  - rewrite lookup_delete_ne; [done|congruence].
  - rewrite lookup_delete_ne; [done|congruence].
Qed.

Ltac ctrl_goal :=
  cbn [ctrl objs];
  repeat first [rewrite lookup_insert_ne by congruence];
  try done; try congruence.

Lemma run_heap_frame (h : heap) (o : operation) (r : outcome unit) :
  run o h = r →
  match r with
  | Ok _ h' | Throw h' =>
      (∀ c, (∀ a x, a ∈ operands o → insts h !! a = Some x →
                    _ref_count x ≠ Some c) →
            allocation o ≠ Some c → ctrl h' !! c = ctrl h !! c) ∧
      (∀ p, (∀ x, insts h !! this_of o = Some x → _ptr x ≠ Some p) →
            objs h' !! p = objs h !! p)
  | UB => True
  end.
Proof.
  intros H.
  destruct o as [this|this p na|this|this other|this other|this other|this other
                |this p na]; cbn [run operands allocation this_of] in *.
  - subst r. unfold ctor_default. exec. done.
  - subst r. unfold ctor_ptr.
    destruct p as [q|], na as [c|]; exec; try done.
    split; [|done]. intros c' _ Hc'. ctrl_goal.
  - destruct r as [u h'|h'|]; [| |done].
    all: unfold dtor in H;
      apply after_release_eq in H as (h1 & y & Hy & _ & Hrel & H); [|done].
    all: exec_in H; simplify_eq. cbn [ctrl objs]. split.
    + intros c Hc _. eapply released_ctrl; [done|]. eapply Hc; [|done]. set_solver.
    + intros p Hp. eapply released_objs; eauto.
  - destruct r as [u h'|h'|]; [| |done].
    all: unfold ctor_copy in H.
    all: destruct (insts h !! other) as [x|] eqn:Hx; exec_in H; [|done].
    all: destruct (_ref_count x) as [c|] eqn:Hc; exec_in H;
      [destruct (ctrl h !! c) as [n|] eqn:Hn; exec_in H|]; simplify_eq.
    + split; [|done]. intros c' Hc' _. cbn [ctrl].
      rewrite lookup_insert_ne; [done|]. intros <-.
      eapply (Hc' other x); [set_solver|done|done].
    + done.
  - unfold assign_copy in H.
    destruct (decide (this ≠ other)) as [Hne|]; [|exec_in H; by subst r].
    destruct r as [u h'|h'|]; [| |done].
    all: apply after_release_eq in H as (h1 & y & Hy & _ & Hrel & H); [|done].
    all: pose proof (released_insts _ _ _ Hrel) as Hi.
    all: assert (Hy1 : insts h1 !! this = Some y) by (by rewrite Hi).
    all: destruct (insts h1 !! other) as [x|] eqn:Hx; exec_in H; [|done].
    all: destruct (_ref_count x) as [c|] eqn:Hc; exec_in H;
      [destruct (ctrl h1 !! c) as [n|] eqn:Hn; exec_in H|]; simplify_eq;
      cbn [ctrl objs].
    + split.
      * intros c' Hc' _. rewrite lookup_insert_ne.
        -- eapply released_ctrl; [done|]. eapply Hc'; [|done]. set_solver.
        -- intros <-. rewrite Hi in Hx. eapply (Hc' other x); [set_solver|done|done].
      * intros p Hp. eapply released_objs; eauto.
    + split.
      * intros c' Hc' _. eapply released_ctrl; [done|]. eapply Hc'; [|done]. set_solver.
      * intros p Hp. eapply released_objs; eauto.
  - destruct r as [u h'|h'|]; [| |done].
    all: unfold ctor_move in H.
    all: destruct (insts h !! other) as [x|] eqn:Hx; exec_in H; [|done].
    all: destruct (decide (this = other)) as [->|Hne]; exec_in H; simplify_eq.
    all: done.
  - unfold assign_move in H.
    destruct (decide (this ≠ other)) as [Hne|]; [|exec_in H; by subst r].
    destruct r as [u h'|h'|]; [| |done].
    all: apply after_release_eq in H as (h1 & y & Hy & _ & Hrel & H); [|done].
    all: pose proof (released_insts _ _ _ Hrel) as Hi.
    all: assert (Hy1 : insts h1 !! this = Some y) by (by rewrite Hi).
    all: destruct (insts h1 !! other) as [x|] eqn:Hx; exec_in H; [|done].
    all: simplify_eq; cbn [ctrl objs]. split.
    + intros c' Hc' _. eapply released_ctrl; [done|]. eapply Hc'; [|done]. set_solver.
    + intros p Hp. eapply released_objs; eauto.
  - destruct r as [u h'|h'|]; [| |done].
    all: unfold reset in H;
      apply after_release_eq in H as (h1 & y & Hy & _ & Hrel & H); [|done].
    all: pose proof (released_insts _ _ _ Hrel) as Hi.
    all: assert (Hy1 : insts h1 !! this = Some y) by (by rewrite Hi).
    all: destruct p as [q|], na as [c|]; exec_in H; simplify_eq; cbn [ctrl objs].
    all: split;
      [intros c' Hc' Hal; try (rewrite lookup_insert_ne by congruence);
       eapply released_ctrl; [done|]; eapply Hc'; [|done]; set_solver
      |intros p Hp; eapply released_objs; eauto].
Qed.

(** X12: an operation that returns or throws and that deletes no managed
    object (a constructor; or the destructor, an assignment or [reset]
    called on an instance that is null or not the last owner of its object)
    writes the members of no instance but [this] (and, for a move, the
    source); it changes the counter of no control block other than those
    its operands referenced and the one it allocated; it leaves every
    managed object alive; and it adds nothing to the event log but the
    allocation of its control block. *)
Theorem unrelated_state_untouched (h h' : heap) (o : operation) :
  keeps_objects h o →
  run o h = Ok tt h' ∨ run o h = Throw h' →
  (∀ d, d ∉ written o → insts h' !! d = insts h !! d) ∧
  (∀ c, (∀ a x, a ∈ operands o → insts h !! a = Some x →
                _ref_count x ≠ Some c) →
        allocation o ≠ Some c → ctrl h' !! c = ctrl h !! c) ∧
  objs h' = objs h ∧
  (trace h' = trace h ∨
   ∃ c, allocation o = Some c ∧ trace h' = trace h ++ [EvNewCtrl c]).
Proof.
  intros Hk H. split; [|split].
  - intros d Hd. destruct H as [H|H]; exact (run_frame h o d _ Hd H).
  - destruct H as [H|H]; exact (proj1 (run_heap_frame h o _ H)).
  - destruct H as [H|H]; exact (run_keeps h o _ Hk H).
Qed.

(** The destruction of instance 2 of [heap_three], which shares its object
    with instance 3. *)
Lemma unrelated_state_untouched_witness :
  ∃ h', run (OpDestroy 2%positive) heap_three = Ok tt h' ∧
        insts h' !! 3%positive = insts heap_three !! 3%positive ∧
        ctrl h' !! 20%positive = ctrl heap_three !! 20%positive ∧
        objs h' = objs heap_three ∧ trace h' = trace heap_three.
Proof.
  eexists. split; [vm_compute; reflexivity|].
  assert (Hk : keeps_objects heap_three (OpDestroy 2%positive)).
  { intros x Hx. vm_compute in Hx. injection Hx as <-.
    exists 2. split; [reflexivity|discriminate]. }
  destruct (unrelated_state_untouched heap_three _ (OpDestroy 2%positive)
              Hk (or_introl eq_refl)) as (Hi & Hc & Ho & Ht).
  split; [|split; [|split]].
  - apply Hi. cbn. intros Hin. apply list_elem_of_singleton in Hin. discriminate.
  - apply Hc; [|done]. intros a x Ha Hx. cbn in Ha.
    apply list_elem_of_singleton in Ha as ->. vm_compute in Hx.
    injection Hx as <-. discriminate.
  - exact Ho.
  - destruct Ht as [Ht|(c & Hal & _)]; [exact Ht|discriminate].
Defined.

(** ** The event log *)








